(** * Build and release pipeline of the rack: a shallow embedding

    Two source files are embedded:
    - [cmd/convox/builds.go], the command-line side that indexes or packs a
      source tree, submits a build and waits for it (module [Convox]);
    - the provider's release file with [ReleaseList], [ReleaseCreate],
      [ReleasePromote], [ReleaseCopy] and [releaseFormation]
      (module [Provider]).

    Go code is written in a small state-and-error monad.  A call on an
    external collaborator (rack client, file system, DynamoDB,
    CloudFormation) reads its answer from a [World] record and appends an
    event to the trace, so that "no such call was issued" is a statement on
    the trace. *)

From stdpp Require Import gmap strings list fin_maps pretty.
From Stdlib Require Import String Ascii.

Local Open Scope string_scope.
Local Open Scope list_scope.

(** ** Go control flow *)

Module Go.

(** A Go [error] value is represented by its message. *)
Definition error := string.

(** The pair [(v, err)] returned by a fallible call. *)
Definition result (A : Type) : Type := (A + error)%type.

Inductive outcome (A : Type) : Type :=
| Ok (a : A)       (* the function returned with a nil error *)
| Err (e : error)  (* the function returned a non-nil error *)
| Panic            (* run-time panic: nil dereference, index out of range *)
| Running.         (* the loop was still going when the fuel ran out *)

Arguments Ok {A} a.
Arguments Err {A} e.
Arguments Panic {A}.
Arguments Running {A}.

Section Monad.
Context {St : Type}.

Definition M (A : Type) : Type := St → outcome A * St.

Definition ret {A} (a : A) : M A := λ s, (Ok a, s).

Definition fail {A} (e : error) : M A := λ s, (Err e, s).

Definition panic {A} : M A := λ s, (Panic, s).

Definition running {A} : M A := λ s, (Running, s).

Definition bind {A B} (m : M A) (k : A → M B) : M B :=
  λ s, match m s with
       | (Ok a, s') => k a s'
       | (Err e, s') => (Err e, s')
       | (Panic, s') => (Panic, s')
       | (Running, s') => (Running, s')
       end.

(** [v, err := f()] where the caller looks at [err] itself instead of
    returning it. *)
Definition catch {A} (m : M A) : M (result A) :=
  λ s, match m s with
       | (Ok a, s') => (Ok (inl a), s')
       | (Err e, s') => (Ok (inr e), s')
       | (Panic, s') => (Panic, s')
       | (Running, s') => (Running, s')
       end.

(** [if err != nil { return ..., err }] on an answer already at hand. *)
Definition lift {A} (r : result A) : M A :=
  match r with
  | inl a => ret a
  | inr e => fail e
  end.

Definition lift_err (r : option error) : M unit :=
  match r with
  | None => ret tt
  | Some e => fail e
  end.

Definition get : M St := λ s, (Ok s, s).

Definition modify (f : St → St) : M unit := λ s, (Ok tt, f s).
End Monad.

Declare Scope go_scope.
Delimit Scope go_scope with go.

Notation "'let*' x ':=' m 'in' k" := (bind m (λ x, k))
  (at level 10, x name, m at level 100, k at level 200) : go_scope.
Notation "m ';;' k" := (bind m (λ _, k))
  (at level 100, k at level 200, right associativity) : go_scope.

End Go.

Import Go.
Local Open Scope go_scope.

(** ** cmd/convox/builds.go *)

Module Convox.

Definition bytes := list Byte.byte.

(** [client.Build], the fields read by this file. *)
Record Build := mkBuild {
  build_Id : string;
  build_Status : string;
  build_Release : string;
}.

(** [client.System], the field read by this file. *)
Record System := mkSystem {
  system_Version : string;
}.

(** [os.FileInfo] as handed to the walk function. *)
Record FileInfo := mkFileInfo {
  info_IsDir : bool;
  info_Mode : N;
  info_ModTime : Z;
}.

(** [client.IndexItem]. *)
Record IndexItem := mkIndexItem {
  item_Name : string;
  item_Mode : N;
  item_ModTime : Z;
  item_Size : nat;
}.

(** [client.Index] is [map[string]IndexItem], keyed by content hash. *)
Abbreviation Index := (gmap string IndexItem).

(** One member of a tar archive.  The gzip and tar byte encodings are not
    modelled: an archive is the list of its members in write order. *)
Record TarEntry := mkTarEntry {
  te_Name : string;
  te_Mode : N;
  te_Data : bytes;
}.

Definition Archive := list TarEntry.

(** [archive.TarOptions], the fields set by [createTarball]. *)
Record TarOptions := mkTarOptions {
  opt_ExcludePatterns : list string;
  opt_IncludeFiles : list string;
}.

(** What [os.Open] can answer. *)
Inductive opened :=
| NotExist               (* os.IsNotExist(err) *)
| OpenFailed (e : error) (* any other error *)
| Opened.                (* a file handle *)

(** One visit of [filepath.Walk]; [we_info] is [None] when the walk hands a
    nil [FileInfo] to the callback (lstat of the root failed). *)
Record WalkEntry := mkWalkEntry {
  we_path : string;
  we_info : option FileInfo;
}.

(** Everything outside this file: flags of the [cli.Context], the rack
    client, and the os / filepath / docker helper packages. *)
Record World := mkWorld {
  (* cli.Context *)
  flag_incremental : bool;
  flag_no_cache : bool;
  (* net/url: scheme of the parsed URL, [None] when Parse returns nil *)
  url_Parse : string → option string;
  (* rack client *)
  GetSystem : result System;
  IndexMissing : Index → result (list string);
  IndexUpdate : Archive → option error;
  CreateBuildIndex : string → Index → bool → string → string → result Build;
  CreateBuildSourceProgress :
    string → Archive → bool → string → string → result Build;
  CreateBuildUrl : string → string → bool → string → string → result Build;
  StreamBuildLogs : string → string → option error;
  (* the build record the rack reports after [n] seconds of waiting *)
  GetBuild : string → string → nat → result Build;
  (* os, path/filepath, io/ioutil *)
  Getwd : result string;
  Chdir : string → option error;
  Abs : string → result string;
  EvalSymlinks : string → result string;
  Join : string → string → string;
  Rel : string → string → result string;
  Stat : string → bool;
  Open : string → opened;
  ReadFile : string → result bytes;
  Walk : string → list WalkEntry;
  (* regular files below a directory, named by relative path *)
  Tree : string → list TarEntry;
  TarFailure : string → option error;
  (* docker helpers and crypto *)
  dockerignore_ReadAll : string → result (list string);
  Matches : string → list string → result bool;
  sha256_hex : bytes → string;
}.

(** Calls that leave the process, and the archive writers. *)
Inductive Event :=
| EvPrint (s : string)
| EvGetSystem
| EvIndexMissing (index : Index)
| EvIndexUpdate (a : Archive)
| EvCreateBuildIndex (app : string) (index : Index) (cache : bool)
    (manifest description : string)
| EvCreateBuildSource (app : string) (a : Archive) (cache : bool)
    (manifest description : string)
| EvCreateBuildUrl (app url : string) (cache : bool)
    (manifest description : string)
| EvStreamBuildLogs (app id : string)
| EvGetBuild (app id : string)
| EvSleep
| EvGoCopyStdout
| EvReadFile (path : string)
| EvNewTarWriter
| EvTarWithOptions (src : string) (o : TarOptions)
| EvChdir (dir : string).

Record State := mkState {
  trace : list Event;  (* oldest first *)
  clock : nat;         (* seconds slept so far *)
}.

Abbreviation M := (@Go.M State).

Definition emit (ev : Event) : M unit :=
  modify (λ s, mkState (trace s ++ [ev]) (clock s)).

Definition Print (s : string) : M unit := emit (EvPrint s).

(** The line feed that [Println] and a trailing [\n] write. *)
Definition nl : string := String (ascii_of_nat 10) EmptyString.

(** [time.Sleep(1 * time.Second)] *)
Definition Sleep : M unit :=
  modify (λ s, mkState (trace s ++ [EvSleep]) (S (clock s))).

Section Code.
Variable w : World.

(** [func waitForBuild(c, app, id)]: the [for] loop, one turn per unit of
    fuel. *)
Fixpoint waitForBuild (fuel : nat) (app id : string) : M string :=
  match fuel with
  | O => running
  | S fuel' =>
      let* s := get in
      emit (EvGetBuild app id);;
      let* build := lift (GetBuild w app id (clock s)) in
      if decide (build_Status build = "complete") then
        ret (build_Release build)
      else if decide (build_Status build = "error") then
        fail (app +:+ " build failed")
      else if decide (build_Status build = "failed") then
        fail (app +:+ " build failed")
      else if decide (build_Status build = "timeout") then
        fail (app +:+ " build timed out")
      else
        Sleep;;
        waitForBuild fuel' app id
  end.

(** [func finishBuild(c, app, build)].  The goroutine
    [go io.Copy(os.Stdout, reader)] only moves log bytes to the terminal
    and its result is dropped; it is kept as an event. *)
Definition finishBuild (fuel : nat) (app : string) (build : Build)
  : M string :=
  if decide (build_Id build = "") then
    fail "unable to fetch build id"
  else
    emit EvGoCopyStdout;;
    emit (EvStreamBuildLogs app (build_Id build));;
    lift_err (StreamBuildLogs w app (build_Id build));;
    let* release := waitForBuild fuel app (build_Id build) in
    ret release.

(** [func readDockerIgnore(dir)] *)
Definition readDockerIgnore (dir : string) : M (list string) :=
  let path := Join w dir ".dockerignore" in
  match Open w path with
  | NotExist => ret []
  | OpenFailed e => fail e
  | Opened => lift (dockerignore_ReadAll w path)
  end.

(** [func warnUnignoredEnv(dir)] *)
Definition warnUnignoredEnv (dir : string) : M unit :=
  let hasDotEnv := Stat w ".env" in
  let hasDockerIgnore := Stat w ".dockerignore" in
  let* warn :=
    (if negb hasDockerIgnore && hasDotEnv then ret true
     else if hasDockerIgnore && hasDotEnv then
       let* lines := readDockerIgnore dir in
       if decide (List.length lines = 0) then ret true
       else ret (negb (bool_decide (".env" ∈ lines)))
     else ret false) in
  if warn : bool then
    Print ("WARNING: You have a .env file that is not in your "
           +:+ ".dockerignore, you may be leaking secrets" +:+ nl)
  else ret tt.

(** The closure returned by [func indexWalker(root, index, ignore)],
    applied to one visit.  The Go map is updated in place; here the
    updated index is handed back. *)
Definition indexWalker (root : string) (index : Index)
    (ignore : list string) (e : WalkEntry) : M Index :=
  let* rel := lift (Rel w root (we_path e)) in
  match we_info e with
  | None => panic
  | Some info =>
      if info_IsDir info then ret index
      else
        let* match_ := lift (Matches w rel ignore) in
        if match_ : bool then ret index
        else
          emit (EvReadFile (we_path e));;
          let* data := lift (ReadFile w (we_path e)) in
          let hash := sha256_hex w data in
          ret (<[hash := mkIndexItem rel (info_Mode info)
                           (info_ModTime info) (List.length data)]> index)
  end.

(** [filepath.Walk(root, fn)]: the visits in order, stopping at the first
    error the callback returns. *)
Fixpoint walkWith (root : string) (ignore : list string)
    (entries : list WalkEntry) (index : Index) : M Index :=
  match entries with
  | [] => ret index
  | e :: rest =>
      let* index' := indexWalker root index ignore e in
      walkWith root ignore rest index'
  end.

(** [func createIndex(dir)] *)
Definition createIndex (dir : string) : M Index :=
  let index : Index := ∅ in
  warnUnignoredEnv dir;;
  let* ignore := readDockerIgnore dir in
  let* resolved := lift (EvalSymlinks w dir) in
  walkWith resolved ignore (Walk w resolved) index.

(** The body of [for _, m := range missing] in [uploadIndex]; a hash that
    is not in the index reads the zero [IndexItem]. *)
Fixpoint packMissing (index : Index) (missing : list string)
    (tw : Archive) : M Archive :=
  match missing with
  | [] => ret tw
  | m :: rest =>
      let name := item_Name (default (mkIndexItem "" 0 0 0) (index !! m)) in
      emit (EvReadFile name);;
      let* data := lift (ReadFile w name) in
      packMissing index rest (tw ++ [mkTarEntry m 384 data])
  end.

(** [func uploadIndex(c, index)] *)
Definition uploadIndex (index : Index) : M unit :=
  emit (EvIndexMissing index);;
  let* missing := lift (IndexMissing w index) in
  Print "Identifying changes... ";;
  if decide (List.length missing = 0) then
    Print ("NONE" +:+ nl);;
    ret tt
  else
    Print (pretty (List.length missing) +:+ " files" +:+ nl);;
    emit EvNewTarWriter;;
    let* buf := packMissing index missing [] in
    emit (EvIndexUpdate buf);;
    lift_err (IndexUpdate w buf);;
    Print nl;;
    ret tt.

(** [keepThem, _ := fileutils.Matches(file, excludes)]: the error is
    dropped and the boolean is false with it. *)
Definition matchesOrFalse (file : string) (excludes : list string) : bool :=
  match Matches w file excludes with
  | inl b => b
  | inr _ => false
  end.

(** docker's [archive.TarWithOptions], at its interface.  Every include
    is walked in turn; a file below it is skipped when it matches an
    exclude pattern, unless it is the include itself, and a path already
    written is not written twice. *)
Definition under (include p : string) : bool :=
  bool_decide (include = ".") || bool_decide (p = include)
  || String.prefix (include +:+ "/") p.

Definition tarVisit (excludes : list string) (include : string)
    (acc : Archive) (f : TarEntry) : Archive :=
  if negb (under include (te_Name f)) then acc
  else if negb (bool_decide (include = te_Name f))
          && match Matches w (te_Name f) excludes with
             | inl b => b
             | inr _ => true
             end
  then acc
  else if bool_decide (te_Name f ∈ te_Name <$> acc) then acc
  else acc ++ [f].

Definition tarAll (excludes : list string) (files : list TarEntry)
    (includes : list string) (acc : Archive) : Archive :=
  foldl (λ acc include, foldl (tarVisit excludes include) acc files)
        acc includes.

Definition TarWithOptions (src : string) (o : TarOptions) : M Archive :=
  emit (EvTarWithOptions src o);;
  lift_err (TarFailure w src);;
  ret (tarAll (opt_ExcludePatterns o) (Tree w src) (opt_IncludeFiles o) []).

Definition chdir (dir : string) : M unit :=
  emit (EvChdir dir);;
  lift_err (Chdir w dir).

(** [func createTarball(base)] *)
Definition createTarball (base : string) : M Archive :=
  let* cwd := lift (Getwd w) in
  let* sym := lift (EvalSymlinks w base) in
  chdir sym;;
  let includes := ["."] in
  let dockerIgnorePath := Join w sym ".dockerignore" in
  let* excludes :=
    match Open w dockerIgnorePath with
    | NotExist => ret []
    | OpenFailed e => fail e
    | Opened => lift (dockerignore_ReadAll w dockerIgnorePath)
    end in
  let keepThem1 := matchesOrFalse ".dockerignore" excludes in
  let keepThem2 := matchesOrFalse "Dockerfile" excludes in
  let includes :=
    if keepThem1 || keepThem2
    then includes ++ [".dockerignore"; "Dockerfile"]
    else includes in
  let options := mkTarOptions excludes includes in
  let* out := TarWithOptions sym options in
  chdir cwd;;
  ret out.

(** [func executeBuildDir(c, dir, app, manifest, description)] *)
Definition executeBuildDir (fuel : nat)
    (dir app manifest description : string) : M string :=
  warnUnignoredEnv dir;;
  let* dir := lift (Abs w dir) in
  Print "Creating tarball... ";;
  let* tar := createTarball dir in
  Print ("OK" +:+ nl);;
  let cache := negb (flag_no_cache w) in
  emit (EvCreateBuildSource app tar cache manifest description);;
  let* build :=
    lift (CreateBuildSourceProgress w app tar cache manifest description) in
  Print nl;;
  finishBuild fuel app build.

(** [func executeBuildDirIncremental(c, dir, app, manifest, description)];
    Go compares strings byte by byte, which is [String.ltb]. *)
Definition executeBuildDirIncremental (fuel : nat)
    (dir app manifest description : string) : M string :=
  emit EvGetSystem;;
  let* system := lift (GetSystem w) in
  if String.ltb (system_Version system) "20160226234213" then
    executeBuildDir fuel dir app manifest description
  else
    let cache := negb (flag_no_cache w) in
    let* dir := lift (Abs w dir) in
    Print "Analyzing source... ";;
    let* index := createIndex dir in
    Print ("OK" +:+ nl);;
    uploadIndex index;;
    Print "Starting build... ";;
    emit (EvCreateBuildIndex app index cache manifest description);;
    let* build :=
      lift (CreateBuildIndex w app index cache manifest description) in
    Print ("OK" +:+ nl);;
    finishBuild fuel app build.

(** [func executeBuildUrl(c, url, app, manifest, description)] *)
Definition executeBuildUrl (fuel : nat)
    (url app manifest description : string) : M string :=
  let cache := negb (flag_no_cache w) in
  emit (EvCreateBuildUrl app url cache manifest description);;
  let* build := lift (CreateBuildUrl w app url cache manifest description) in
  finishBuild fuel app build.

(** [func executeBuild(c, source, app, manifest, description)];
    [u, _ := url.Parse(source)] drops the error, and [u.Scheme] on a nil
    [u] panics. *)
Definition executeBuild (fuel : nat)
    (source app manifest description : string) : M string :=
  match url_Parse w source with
  | None => panic
  | Some scheme =>
      if decide (scheme = "http" ∨ scheme = "https") then
        executeBuildUrl fuel source app manifest description
      else if flag_incremental w then
        executeBuildDirIncremental fuel source app manifest description
      else
        executeBuildDir fuel source app manifest description
  end.

End Code.

End Convox.

(** ** The provider's release file *)

Module Provider.

(** [dynamodb.Attribute], the fields this file reads and writes. *)
Record Attribute := mkAttribute {
  attr_Type : string;
  attr_Name : string;
  attr_Value : string;
}.

(** [dynamodb.NewStringAttribute(name, value)] *)
Definition NewStringAttribute (name value : string) : Attribute :=
  mkAttribute "S" name value.

(** A stored item as [GetItem] returns it: [map[string]*Attribute]. *)
Abbreviation Item := (gmap string Attribute).

(** [cloudformation.Parameter] *)
Record CfParameter := mkParameter {
  cf_ParameterKey : string;
  cf_ParameterValue : string;
}.

(** One element of [DescribeStacks(...).Stacks]. *)
Record Stack := mkStack {
  stack_Parameters : list CfParameter;
}.

(** [cloudformation.UpdateStackParams] *)
Record UpdateStackParams := mkUpdateStackParams {
  usp_StackName : string;
  usp_TemplateBody : string;
  usp_Parameters : list CfParameter;
}.

(** [type Release struct] *)
Record Release := mkRelease {
  rel_Id : string;
  rel_Ami : string;
  rel_CreatedAt : Z;
}.

(** Everything outside this file.  [AppShow] answers with the raw Go pair,
    since [ReleasePromote] writes through the pointer before it looks at
    the error.  [generateId], [appParams], [NewManifest], [buildTemplate]
    and the constant [SortableTime] belong to the package but not to this
    file; they are taken as given. *)
Record World := mkWorld {
  (* DynamoDB *)
  GetItem : string → string → result Item;
  PutItem : string → string → string → list Attribute → option error;
  QueryTable : string → string → result (list Item);
  (* CloudFormation *)
  DescribeStacks : string → result (list Stack);
  UpdateStack : UpdateStackParams → option error;
  (* the rest of the package *)
  AppShow : string → string → option string * option error;
  appParams : string → string → result string;
  NewManifest : string → result string;
  buildTemplate : string → string → result string;
  generateId : string → nat → string;
  SortableTime : string;
  (* package time *)
  Now : Z;
  time_Format : string → Z → string;
  time_Parse : string → string → result Z;
}.

Inductive Event :=
| EvDebug (label : string)
| EvGetItem (table key : string)
| EvPutItem (table hashKey rangeKey : string) (attrs : list Attribute)
| EvQueryTable (table app : string)
| EvAppShow (cluster app : string)
| EvDescribeStacks (stack : string)
| EvUpdateStack (params : UpdateStackParams).

(** The trace of calls, oldest first. *)
Definition State := list Event.

Abbreviation M := (@Go.M State).

Definition emit (ev : Event) : M unit := modify (λ s, s ++ [ev]).

(** Modelled from the spec: [coalesce] is not among the sources.  The spec
    has promotion fail when the artifact identifier of the record is
    absent, and the caller tests the value against the default it passes,
    so an absent attribute reads as the default and a present one as its
    value. *)
Definition coalesce (attr : option Attribute) (def : string) : string :=
  match attr with
  | Some a => attr_Value a
  | None => def
  end.

(** [func releasesTable(cluster, app)]: the table is known by its name. *)
Definition releasesTable (cluster app : string) : string :=
  cluster +:+ "-" +:+ app +:+ "-releases".

Section Code.
Variable w : World.

(** [func ReleaseList(cluster, app)].  [r["created"].Value] on an item
    without that attribute dereferences nil. *)
Fixpoint parseReleases (dreleases : list Item) (releases : list Release)
  : M (list Release) :=
  match dreleases with
  | [] => ret releases
  | r :: rest =>
      match r !! "created" with
      | None => panic
      | Some c =>
          let* created :=
            lift (time_Parse w (SortableTime w) (attr_Value c)) in
          parseReleases rest
            (releases ++ [mkRelease (coalesce (r !! "id") "")
                                    (coalesce (r !! "ami") "") created])
      end
  end.

Definition ReleaseList (cluster app : string) : M (list Release) :=
  let table := releasesTable cluster app in
  emit (EvQueryTable table app);;
  let* dreleases := lift (QueryTable w table app) in
  parseReleases dreleases [].

(** [func ReleaseCreate(cluster, app, ami, options)].  Go ranges over a
    map in an unspecified order; [map_to_list] fixes one, and the
    properties below only speak of membership. *)
Definition ReleaseCreate (cluster app ami : string)
    (options : gmap string string) : M unit :=
  let attributes :=
    [NewStringAttribute "ami" ami;
     NewStringAttribute "created-at" "now"] in
  let attributes :=
    attributes
    ++ ((λ kv, NewStringAttribute kv.1 kv.2) <$> map_to_list options) in
  emit (EvPutItem (releasesTable cluster app) ami "" attributes);;
  lift_err (PutItem w (releasesTable cluster app) ami "" attributes).

(** [func releaseFormation(cluster, app, release)] *)
Definition releaseFormation (cluster app release : string) : M string :=
  emit (EvGetItem (releasesTable cluster app) release);;
  let* drelease := lift (GetItem w (releasesTable cluster app) release) in
  let ami := coalesce (drelease !! "ami") "" in
  if decide (ami = "") then fail "invalid ami"
  else
    let* params := lift (appParams w cluster app) in
    match drelease !! "manifest" with
    | None => panic
    | Some m =>
        let manifest := NewManifest w (attr_Value m) in
        emit (EvDebug "manifest");;
        emit (EvDebug "err");;
        let template := buildTemplate w "app" params in
        emit (EvDebug "template");;
        lift template
    end.

(** [func ReleasePromote(cluster, app, release)].  The error of
    [releaseFormation] is printed and the function goes on with the
    empty [formation] that came with it. *)
Definition ReleasePromote (cluster app release : string) : M unit :=
  let* r := catch (releaseFormation cluster app release) in
  let* formation :=
    match r with
    | inl formation => ret formation
    | inr err => emit (EvDebug "err");; ret ""
    end in
  emit (EvAppShow cluster app);;
  match AppShow w cluster app with
  | (None, _) => panic
  | (Some a, Some err) => fail err
  | (Some a, None) =>
      let stack := cluster +:+ "-" +:+ app in
      emit (EvDescribeStacks stack);;
      let* s := lift (DescribeStacks w stack) in
      match s with
      | [] => panic
      | s0 :: _ =>
          let params :=
            mkUpdateStackParams
              (cluster +:+ "-" +:+ app)
              formation
              (stack_Parameters s0 ++ [mkParameter "Release" release]) in
          emit (EvUpdateStack params);;
          lift_err (UpdateStack w params)
      end
  end.

(** The [switch key] of [ReleaseCopy]. *)
Definition copyAttribute (id : string) (key : string) (attr : Attribute)
  : Attribute :=
  if decide (key = "id") then NewStringAttribute key id
  else if decide (key = "created") then
    NewStringAttribute key (time_Format w (SortableTime w) (Now w))
  else NewStringAttribute key (attr_Value attr).

(** [func ReleaseCopy(cluster, app, release)].  The item is printed
    before the error is looked at.  When [PutItem] fails Go returns the
    new id next to the error; here the error alone is kept. *)
Definition ReleaseCopy (cluster app release : string) : M string :=
  let table := releasesTable cluster app in
  emit (EvGetItem table release);;
  emit (EvDebug "drel");;
  let* drel := lift (GetItem w table release) in
  let id := generateId w "R" 9 in
  let rel := (λ kv, copyAttribute id kv.1 kv.2) <$> map_to_list drel in
  emit (EvPutItem (releasesTable cluster app) id "" rel);;
  lift_err (PutItem w (releasesTable cluster app) id "" rel);;
  ret id.

End Code.

End Provider.

(** ** The build commands of cmd/convox/builds.go *)

Module ConvoxCmd.
Import Convox.

(** What the commands add to the world of the build functions: the
    positional arguments and further flags of the [cli.Context], the
    helper [stdcli.DirApp], and three more calls of the rack client. *)
Record Cli := mkCli {
  rack : World;
  Args : list string;
  flag_file : string;
  flag_description : string;
  flag_promote : bool;
  DirApp : string → result (string * string);
  GetApp : string → result string;  (* the Status of the app *)
  CopyBuild : string → string → string → result Build;
  PromoteRelease : string → string → option error;
}.

(** Calls of the commands that are not calls of the build functions. *)
Inductive Call :=
| CallGetApp (app : string)
| CallCopyBuild (app build destApp : string)
| CallPromoteRelease (app id : string)
| CallUsage (name : string).

(** The state of the build functions, and the calls of the command, each
    with the length of the trace at the time of the call. *)
Record CmdState := mkCmdState {
  core : State;
  calls : list (nat * Call);
}.

Abbreviation CmdM := (@Go.M CmdState).

(** A build function run inside a command. *)
Definition run {A} (m : M A) : CmdM A :=
  λ s, let r := m (core s) in (r.1, mkCmdState r.2 (calls s)).

Definition call (c : Call) : CmdM unit :=
  modify (λ s, mkCmdState (core s)
                 (calls s ++ [(List.length (trace (core s)), c)])).

(** [stdcli.ExitError(err)] keeps the message of the error. *)
Definition ExitError {A} (e : error) : CmdM A := fail e.

(** [v, err := f(); if err != nil { return stdcli.ExitError(err) }] *)
Definition orExit {A} (r : result A) : CmdM A :=
  match r with
  | inl a => ret a
  | inr e => ExitError e
  end.

Section Code.
Variable c : Cli.

(** [func cmdBuildsCreate(c)] *)
Definition cmdBuildsCreate (fuel : nat) : CmdM unit :=
  let wd := match Args c with a :: _ => a | [] => "." end in
  let* da := orExit (DirApp c wd) in
  let dir := da.1 in
  let app := da.2 in
  call (CallGetApp app);;
  let* status := orExit (GetApp c app) in
  (if decide (status = "creating") then
     ExitError ("app is still creating: " +:+ app)
   else if decide (status = "running" ∨ status = "updating") then ret tt
   else ExitError ("unable to build app: " +:+ app));;
  let dir := match Args c with a :: _ => a | [] => dir end in
  let* release :=
    run (executeBuild (rack c) fuel dir app (flag_file c)
           (flag_description c)) in
  run (Print ("Release: " +:+ release +:+ nl));;
  ret tt.

(** [func cmdBuildsCopy(c)] *)
Definition cmdBuildsCopy (fuel : nat) : CmdM unit :=
  let* da := orExit (DirApp c ".") in
  let app := da.2 in
  match Args c with
  | [build; destApp] =>
      run (Print "Copying build... ");;
      call (CallCopyBuild app build destApp);;
      let* b := orExit (CopyBuild c app build destApp) in
      run (Print ("OK" +:+ nl));;
      let* releaseID := run (finishBuild (rack c) fuel destApp b) in
      if decide (releaseID ≠ "") then
        if flag_promote c then
          run (Print ("Promoting " +:+ destApp +:+ " " +:+ releaseID
                      +:+ "... "));;
          call (CallPromoteRelease destApp releaseID);;
          match PromoteRelease c destApp releaseID with
          | Some e => ExitError e
          | None => run (Print ("OK" +:+ nl));; ret tt
          end
        else
          run (Print ("To deploy this copy run `convox releases promote "
                      +:+ releaseID +:+ " --app " +:+ destApp +:+ "`"
                      +:+ nl));;
          ret tt
      else ret tt
  | _ => call (CallUsage "copy");; ret tt
  end.

End Code.

End ConvoxCmd.

(** ** The parameter command of the rack command file *)

Module RackCmd.

(** [client.System], the field this command reads. *)
Record System := mkSystem {
  system_Name : string;
}.

Record World := mkWorld {
  Args : list string;
  GetSystem : result System;
  SetParameters : string → gmap string string → option error;
}.

Inductive Event :=
| EvPrint (s : string)
| EvGetSystem
| EvSetParameters (name : string) (params : gmap string string).

Definition State := list Event.

Abbreviation M := (@Go.M State).

Definition emit (ev : Event) : M unit := modify (λ s, s ++ [ev]).

(** The pieces of [s] around its first "=", if it has one. *)
Fixpoint cut (s : string) : option (string * string) :=
  match s with
  | EmptyString => None
  | String a rest =>
      if decide (a = "="%char) then Some (EmptyString, rest)
      else match cut rest with
           | Some (k, v) => Some (String a k, v)
           | None => None
           end
  end.

(** [strings.SplitN(s, "=", 2)]: at most two pieces, split at the first
    separator; the string itself when it has no separator. *)
Definition SplitN2 (s : string) : list string :=
  match cut s with
  | Some (k, v) => [k; v]
  | None => [s]
  end.

Section Code.
Variable w : World.

(** The loop [for _, arg := range c.Args()] of [cmdRackParamsSet]. *)
Fixpoint parseArgs (args : list string) (params : gmap string string)
  : M (gmap string string) :=
  match args with
  | [] => ret params
  | arg :: rest =>
      match SplitN2 arg with
      | [name; value] => parseArgs rest (<[name := value]> params)
      | _ => fail ("invalid argument: " +:+ arg)
      end
  end.

(** [func cmdRackParamsSet(c)] *)
Definition cmdRackParamsSet : M unit :=
  emit EvGetSystem;;
  let* system := lift (GetSystem w) in
  let* params := parseArgs (Args w) ∅ in
  emit (EvPrint "Updating parameters... ");;
  emit (EvSetParameters (system_Name system) params);;
  lift_err (SetParameters w (system_Name system) params);;
  emit (EvPrint ("OK" +:+ Convox.nl));;
  ret tt.

End Code.

End RackCmd.

(** ** Concrete worlds

    Small worlds on which the code is run below. *)

Module Scenario.
Import Convox.

(** A rack and a working directory, described by what varies between the
    runs: the incremental flag, the version the rack reports, the answer
    of the log stream, the build record after [n] seconds, the patterns of
    the ignore file if there is one, the visits of the directory walk, the
    file contents, the files below the directory, and the hashes the rack
    misses. *)
Definition world (incremental : bool) (version : string)
    (stream : option error) (build : nat → result Build)
    (patterns : option (list string)) (walk : list WalkEntry)
    (files : string → result bytes) (tree : list TarEntry)
    (missing : list string) : World :=
  {| flag_incremental := incremental;
     flag_no_cache := false;
     url_Parse := λ _, Some "";
     GetSystem := inl (mkSystem version);
     IndexMissing := λ _, inl missing;
     IndexUpdate := λ _, None;
     CreateBuildIndex := λ _ _ _ _ _, inl (mkBuild "B1" "created" "");
     CreateBuildSourceProgress := λ _ _ _ _ _, inl (mkBuild "B1" "created" "");
     CreateBuildUrl := λ _ _ _ _ _, inl (mkBuild "B1" "created" "");
     StreamBuildLogs := λ _ _, stream;
     GetBuild := λ _ _ n, build n;
     Getwd := inl "/home";
     Chdir := λ _, None;
     Abs := λ dir, inl dir;
     EvalSymlinks := λ dir, inl dir;
     Join := λ a b, a +:+ "/" +:+ b;
     Rel := λ root path, inl path;
     Stat := λ _, false;
     Open := λ _, match patterns with Some _ => Opened | None => NotExist end;
     ReadFile := files;
     Walk := λ _, walk;
     Tree := λ _, tree;
     TarFailure := λ _, None;
     dockerignore_ReadAll := λ _, inl (default [] patterns);
     Matches := λ file pats, inl (bool_decide (file ∈ pats));
     sha256_hex := λ data, "sha-" +:+ pretty (List.length data) |}.

(** The rack says [building] for two seconds and [complete] afterwards. *)
Definition two_seconds (n : nat) : result Build :=
  inl (mkBuild "B1" (if Nat.ltb n 2 then "building" else "complete") "R1").

Definition no_files (path : string) : result bytes := inr "no such file".

Definition st0 : State := mkState [] 0.

(** An old rack asked for an incremental build. *)
Definition old_rack : World :=
  world true "20160101000000" None two_seconds None [] no_files [] [].

(** A rack that already has every file of the index. *)
Definition warm_rack : World :=
  world true "20170101000000" None two_seconds None [] no_files [] [].

(** A rack whose log stream cannot be opened while the build completes. *)
Definition mute_rack : World :=
  world false "20170101000000" (Some "broken pipe")
        (λ _, inl (mkBuild "B1" "complete" "R1")) None [] no_files [] [].

(** A directory whose ignore file lists the ignore file itself. *)
Definition dockerignore_file : TarEntry := mkTarEntry ".dockerignore" 420 [].
Definition dockerfile_file : TarEntry := mkTarEntry "Dockerfile" 420 [].
Definition main_file : TarEntry := mkTarEntry "main.go" 420 [].

Definition self_ignoring : World :=
  world false "20170101000000" None two_seconds (Some [".dockerignore"]) []
        no_files [dockerignore_file; dockerfile_file; main_file] [].

(** A directory with the same three bytes stored under two paths. *)
Definition abc : bytes := [Byte.x61; Byte.x62; Byte.x63].

Definition twin_walk : list WalkEntry :=
  [mkWalkEntry "." (Some (mkFileInfo true 493 0));
   mkWalkEntry "a.txt" (Some (mkFileInfo false 420 10));
   mkWalkEntry "b.txt" (Some (mkFileInfo false 420 20))].

Definition twin_files (path : string) : result bytes :=
  if decide (path = "a.txt" ∨ path = "b.txt") then inl abc
  else inr "no such file".

Definition twins : World :=
  world true "20170101000000" None two_seconds None twin_walk twin_files []
        [].

(** The provider's collaborators, described by what varies between the
    runs: the item [GetItem] answers with, the stacks [DescribeStacks]
    answers with, and the identifier [generateId] draws. *)
Definition cloud (item : result Provider.Item)
    (stacks : result (list Provider.Stack)) (id : string)
  : Provider.World :=
  {| Provider.GetItem := λ _ _, item;
     Provider.PutItem := λ _ _ _ _, None;
     Provider.QueryTable := λ _ _,
       match item with inl i => inl [i] | inr e => inr e end;
     Provider.DescribeStacks := λ _, stacks;
     Provider.UpdateStack := λ _, None;
     Provider.AppShow := λ _ app, (Some app, None);
     Provider.appParams := λ _ _, inl "params";
     Provider.NewManifest := λ m, inl m;
     Provider.buildTemplate := λ name _, inl ("template of " +:+ name);
     Provider.generateId := λ _ _, id;
     Provider.SortableTime := "20060102.150405.000000000";
     Provider.Now := 1456530133;
     Provider.time_Format := λ _ _, "20160226.234213.000000000";
     Provider.time_Parse := λ _ s,
       if decide (s = "20160226.234213.000000000") then inl 1456530133%Z
       else inr "parsing time" |}.

Definition attr (name value : string) : string * Provider.Attribute :=
  (name, Provider.NewStringAttribute name value).

(** A release record with all its fields. *)
Definition full_release : Provider.Item :=
  list_to_map [attr "id" "RAAAAAAAAA"; attr "ami" "ami-x";
               attr "created" "20150101.000000.000000000";
               attr "manifest" "web: {}"; attr "foo" "bar"].

(** A release record without an artifact identifier. *)
Definition release_without_ami : Provider.Item :=
  list_to_map [attr "id" "RAAAAAAAAA";
               attr "created" "20150101.000000.000000000";
               attr "manifest" "web: {}"].

(** The record that [ReleaseCreate "ami-x"] leaves in the table: its
    attributes and the hash key. *)
Definition created_release : Provider.Item :=
  list_to_map [attr "id" "ami-x"; attr "ami" "ami-x";
               attr "created-at" "now"].

Definition live_parameters : list Provider.CfParameter :=
  [Provider.mkParameter "InstanceType" "t2.small"].

Definition one_stack : result (list Provider.Stack) :=
  inl [Provider.mkStack live_parameters].

End Scenario.

(** Variations of a world: another URL scheme, another answer to the
    build request by URL, another [os.Stat], a failing tar call. *)
Module Variation.
Import Convox.

Definition variant (w : World) (scheme : option string)
    (created : option (result Build)) (stat : option (string → bool))
    (tarfail : option error) : World :=
  {| flag_incremental := flag_incremental w;
     flag_no_cache := flag_no_cache w;
     url_Parse := match scheme with
                  | Some s => λ _, Some s
                  | None => url_Parse w
                  end;
     GetSystem := GetSystem w;
     IndexMissing := IndexMissing w;
     IndexUpdate := IndexUpdate w;
     CreateBuildIndex := CreateBuildIndex w;
     CreateBuildSourceProgress := CreateBuildSourceProgress w;
     CreateBuildUrl := match created with
                       | Some r => λ _ _ _ _ _, r
                       | None => CreateBuildUrl w
                       end;
     StreamBuildLogs := StreamBuildLogs w;
     GetBuild := GetBuild w;
     Getwd := Getwd w;
     Chdir := Chdir w;
     Abs := Abs w;
     EvalSymlinks := EvalSymlinks w;
     Join := Join w;
     Rel := Rel w;
     Stat := default (Stat w) stat;
     Open := Open w;
     ReadFile := ReadFile w;
     Walk := Walk w;
     Tree := Tree w;
     TarFailure := match tarfail with
                   | Some e => λ _, Some e
                   | None => TarFailure w
                   end;
     dockerignore_ReadAll := dockerignore_ReadAll w;
     Matches := Matches w;
     sha256_hex := sha256_hex w |}.

(** The old rack asked to build from a URL. *)
Definition by_url : World :=
  variant Scenario.old_rack (Some "https") None None None.

(** A rack that answers a build request with an empty build. *)
Definition no_build_id : World :=
  variant Scenario.old_rack (Some "https")
    (Some (inl (mkBuild "" "created" ""))) None None.

(** A rack that misses the one hash of the twin files. *)
Definition cold_rack : World :=
  Scenario.world true "20170101000000" None Scenario.two_seconds None
    Scenario.twin_walk Scenario.twin_files [] ["sha-3"].

Definition twin_index : Index :=
  {[ "sha-3" := mkIndexItem "b.txt" 420 20 3 ]}.

(** The twin directory with an unreadable file between the twins. *)
Definition broken_walk : list WalkEntry :=
  [mkWalkEntry "." (Some (mkFileInfo true 493 0));
   mkWalkEntry "a.txt" (Some (mkFileInfo false 420 10));
   mkWalkEntry "c.txt" (Some (mkFileInfo false 420 15));
   mkWalkEntry "b.txt" (Some (mkFileInfo false 420 20))].

Definition broken_tree : World :=
  Scenario.world true "20170101000000" None Scenario.two_seconds None
    broken_walk Scenario.twin_files [] [].

(** A directory with a .env file and an ignore file that lists another
    pattern. *)
Definition leaky : World :=
  variant
    (Scenario.world false "20170101000000" None Scenario.two_seconds
       (Some ["*.env"]) [] Scenario.no_files [] [])
    None None (Some (λ _, true)) None.

(** The self-ignoring directory with a tar call that fails. *)
Definition tar_broken : World :=
  variant Scenario.self_ignoring None None None (Some "tar: write error").

End Variation.

(** Variations of the provider's world: another answer of [AppShow],
    another answer of [NewManifest]; and further tables. *)
Module CloudVariation.
Import Provider.

Definition variant (w : World) (show : option (option string * option error))
    (manifest : option (result string)) : World :=
  {| GetItem := GetItem w;
     PutItem := PutItem w;
     QueryTable := QueryTable w;
     DescribeStacks := DescribeStacks w;
     UpdateStack := UpdateStack w;
     AppShow := match show with
                | Some r => λ _ _, r
                | None => AppShow w
                end;
     appParams := appParams w;
     NewManifest := match manifest with
                    | Some r => λ _, r
                    | None => NewManifest w
                    end;
     buildTemplate := buildTemplate w;
     generateId := generateId w;
     SortableTime := SortableTime w;
     Now := Now w;
     time_Format := time_Format w;
     time_Parse := time_Parse w |}.


Definition healthy : World :=
  Scenario.cloud (inl Scenario.full_release) Scenario.one_stack "RBBBBBBBBB".

Definition no_app : World :=
  variant healthy (Some (Some "app", Some "no such app")) None.

(** [AppShow] that fails the idiomatic way, with a nil app. *)
Definition nil_app : World :=
  variant healthy (Some (None, Some "no such app")) None.



(** A table row whose creation time is in the format of the store. *)
Definition stamped_release : Item :=
  list_to_map [Scenario.attr "id" "RAAAAAAAAA"; Scenario.attr "ami" "ami-x";
               Scenario.attr "created" "20160226.234213.000000000"].

Definition stamped : World :=
  Scenario.cloud (inl stamped_release) Scenario.one_stack "RBBBBBBBBB".

End CloudVariation.

(** Command lines. *)
Module CmdScenario.
Import ConvoxCmd.

Definition cli (w : Convox.World) (args : list string) (promote : bool)
    (status : string) (copied : Convox.Build) : Cli :=
  {| rack := w;
     Args := args;
     flag_file := "docker-compose.yml";
     flag_description := "";
     flag_promote := promote;
     DirApp := λ wd, inl (wd, "app");
     GetApp := λ _, inl status;
     CopyBuild := λ _ _ _, inl copied;
     PromoteRelease := λ _ _, None |}.

Definition cst0 : CmdState := mkCmdState Scenario.st0 [].

(** [convox build] for an app that is still being created. *)
Definition build_creating : Cli :=
  cli Scenario.old_rack [] false "creating" (Convox.mkBuild "B1" "created" "").

(** [convox build src] for a running app. *)
Definition build_running : Cli :=
  cli Scenario.old_rack ["src"] false "running"
    (Convox.mkBuild "B1" "created" "").

(** [convox builds copy B1 staging], without and with [--promote]. *)
Definition copy_plain : Cli :=
  cli Scenario.old_rack ["B1"; "staging"] false "running"
    (Convox.mkBuild "B1" "created" "").

Definition copy_promote : Cli :=
  cli Scenario.old_rack ["B1"; "staging"] true "running"
    (Convox.mkBuild "B1" "created" "").

(** [convox rack params set] with its arguments. *)
Definition params_set (args : list string) : RackCmd.World :=
  {| RackCmd.Args := args;
     RackCmd.GetSystem := inl (RackCmd.mkSystem "rack");
     RackCmd.SetParameters := λ _ _, None |}.

End CmdScenario.

Module CmdTerms.

(** The string has the shape [name=value]. *)
Definition has_eq (s : string) : Prop := ∃ k v, s = k +:+ "=" +:+ v.

(** The argument that assigns [kv.2] to the parameter [kv.1]. *)
Definition assign (kv : string * string) : string := kv.1 +:+ "=" +:+ kv.2.

(** The parameters after the assignments [kvs], made in order. *)
Definition assigned (kvs : list (string * string)) : gmap string string :=
  foldl (λ m kv, <[kv.1 := kv.2]> m) ∅ kvs.

End CmdTerms.

(** ** Vocabulary of the statements *)

Module ConvoxSpec.
Import Convox.

(** The four terminal statuses of a build. *)
Definition terminal (status : string) : Prop :=
  status = "complete" ∨ status = "error" ∨ status = "failed"
  ∨ status = "timeout".

(** The state after one turn of the polling loop that did not return: one
    [GetBuild], one second of sleep. *)
Definition polled (app id : string) (st : State) : State :=
  mkState (trace st ++ [EvGetBuild app id; EvSleep]) (S (clock st)).

Definition after_polls (app id : string) (n : nat) (st : State) : State :=
  Nat.iter n (polled app id) st.

(** The state when the loop returns: the last [GetBuild] is not followed by
    a sleep. *)
Definition last_poll (app id : string) (st : State) : State :=
  mkState (trace st ++ [EvGetBuild app id]) (clock st).

(** [emits_only P m]: whatever [m] returns, it leaves the old trace in
    place and appends only events that satisfy [P]. *)
Definition emits_only {A} (P : Event → Prop) (m : M A) : Prop :=
  ∀ st, ∃ evs, trace (m st).2 = trace st ++ evs ∧ Forall P evs.

(** An event other than the missing-hash query. *)
Definition no_missing_query (ev : Event) : Prop :=
  ∀ index, ev ≠ EvIndexMissing index.

(** An event that builds or sends an archive. *)
Definition archive_work (ev : Event) : Prop :=
  ev = EvNewTarWriter ∨ (∃ path, ev = EvReadFile path)
  ∨ (∃ a, ev = EvIndexUpdate a).

(** The sentence of the spec on log streaming, as it is written: when the
    log stream fails, [finishBuild] still ends as the polling loop ends. *)
Definition log_failure_is_not_fatal (w : World) : Prop :=
  ∀ fuel app build st e,
    build_Id build ≠ "" →
    StreamBuildLogs w app (build_Id build) = Some e →
    (finishBuild w fuel app build st).1
    = (waitForBuild w fuel app (build_Id build) st).1.

(** The state in which [finishBuild] starts to poll, or gives up. *)
Definition streamed (app id : string) (st : State) : State :=
  mkState (trace st ++ [EvGoCopyStdout; EvStreamBuildLogs app id]) (clock st).

(** [e] is a visit of a file that is not a directory, is not ignored and
    reads as [data]. *)
Definition indexed_file (w : World) (root : string) (ignore : list string)
    (e : WalkEntry) (data : bytes) : Prop :=
  ∃ info rel,
    we_info e = Some info ∧ info_IsDir info = false
    ∧ Rel w root (we_path e) = inl rel
    ∧ Matches w rel ignore = inl false
    ∧ ReadFile w (we_path e) = inl data.

(** The entries of the index stored under the hash [h]. *)
Definition entries_for (h : string) (index : Index)
  : list (string * IndexItem) :=
  filter (λ kv, kv.1 = h) (map_to_list index).

End ConvoxSpec.

Module ProviderSpec.
Import Provider.

(** An event other than a stack update. *)
Definition no_update (ev : Event) : Prop := ∀ params, ev ≠ EvUpdateStack params.

(** The update request that [ReleasePromote] builds from the first stack
    in the answer of [DescribeStacks]. *)
Definition update_request (cluster app release formation : string)
    (s0 : Stack) : UpdateStackParams :=
  mkUpdateStackParams (cluster +:+ "-" +:+ app) formation
    (stack_Parameters s0 ++ [mkParameter "Release" release]).

(** [ReleasePromote] from the call of [AppShow] on, with the template body
    [formation] at hand: the outcome and the events it appends. *)
Definition promote_after (w : World) (cluster app release formation : string)
  : outcome unit * list Event :=
  match AppShow w cluster app with
  | (None, _) => (Panic, [EvAppShow cluster app])
  | (Some a, Some err) => (Err err, [EvAppShow cluster app])
  | (Some a, None) =>
      let seen := [EvAppShow cluster app;
                   EvDescribeStacks (cluster +:+ "-" +:+ app)] in
      match DescribeStacks w (cluster +:+ "-" +:+ app) with
      | inr e => (Err e, seen)
      | inl [] => (Panic, seen)
      | inl (s0 :: _) =>
          let params := update_request cluster app release formation s0 in
          (match UpdateStack w params with
           | None => Ok tt
           | Some e => Err e
           end, seen ++ [EvUpdateStack params])
      end
  end.

(** The attribute list that [ReleaseCreate] hands to [PutItem]. *)
Definition created_attributes (ami : string) (options : gmap string string)
  : list Attribute :=
  [NewStringAttribute "ami" ami; NewStringAttribute "created-at" "now"]
  ++ ((λ kv, NewStringAttribute kv.1 kv.2) <$> map_to_list options).


End ProviderSpec.

Module ConvoxTerms.
Import Convox.

(** The path [uploadIndex] reads for the hash [m]: the name of its index
    entry, or the empty name of the zero entry. *)
Definition path_of (index : Index) (m : string) : string :=
  item_Name (default (mkIndexItem "" 0 0 0) (index !! m)).

(** The archive member [e] is the file of hash [m] as [uploadIndex] packs
    it: named by the hash, mode 0600, with the bytes read from the path of
    its index entry. *)
Definition packed (w : World) (index : Index) (m : string) (e : TarEntry)
  : Prop :=
  te_Name e = m ∧ te_Mode e = 384%N
  ∧ ReadFile w (path_of index m) = inl (te_Data e).

(** The index entry [item] under the key [h] describes the visit [e]. *)
Definition describes (w : World) (root : string) (ignore : list string)
    (h : string) (item : IndexItem) (e : WalkEntry) : Prop :=
  ∃ info data,
    we_info e = Some info ∧ info_IsDir info = false
    ∧ Rel w root (we_path e) = inl (item_Name item)
    ∧ Matches w (item_Name item) ignore = inl false
    ∧ ReadFile w (we_path e) = inl data
    ∧ h = sha256_hex w data
    ∧ item_Mode item = info_Mode info
    ∧ item_ModTime item = info_ModTime info
    ∧ item_Size item = List.length data.

(** The visit [e] is one whose file the walk function opens: not a
    directory and not matched by the ignore patterns. *)
Definition eligible (w : World) (root : string) (ignore : list string)
    (e : WalkEntry) : Prop :=
  ∃ info rel,
    we_info e = Some info ∧ info_IsDir info = false
    ∧ Rel w root (we_path e) = inl rel
    ∧ Matches w rel ignore = inl false.

(** The patterns [createTarball] works with in the directory [sym]: none
    when there is no ignore file, else those read from it. *)
Definition ignore_patterns (w : World) (sym : string)
    (excludes : list string) : Prop :=
  (Open w (Join w sym ".dockerignore") = NotExist ∧ excludes = [])
  ∨ (Open w (Join w sym ".dockerignore") = Opened
     ∧ dockerignore_ReadAll w (Join w sym ".dockerignore") = inl excludes).

(** The options [createTarball] hands to [TarWithOptions]. *)
Definition tar_options (w : World) (excludes : list string) : TarOptions :=
  mkTarOptions excludes
    (if matchesOrFalse w ".dockerignore" excludes
        || matchesOrFalse w "Dockerfile" excludes
     then ["."; ".dockerignore"; "Dockerfile"] else ["."]).

(** Names are written once, and a member is either one of the includes
    or a file no pattern matches. *)
Definition well_packed (w : World) (excludes includes : list string)
    (acc : Archive) : Prop :=
  NoDup (te_Name <$> acc)
  ∧ ∀ f, f ∈ acc →
      te_Name f ∈ includes ∨ Matches w (te_Name f) excludes = inl false.

(** The state after the warning of [warnUnignoredEnv]. *)
Definition warned (st : State) : State :=
  mkState
    (trace st
     ++ [EvPrint ("WARNING: You have a .env file that is not in your "
                  +:+ ".dockerignore, you may be leaking secrets" +:+ nl)])
    (clock st).

End ConvoxTerms.

Module ProviderTerms.
Import Provider.

(** The release [rel] is the row [r] as [ReleaseList] reads it. *)
Definition read_as (w : World) (r : Item) (rel : Release) : Prop :=
  rel_Id rel = coalesce (r !! "id") ""
  ∧ rel_Ami rel = coalesce (r !! "ami") ""
  ∧ ∃ c, r !! "created" = Some c
         ∧ time_Parse w (SortableTime w) (attr_Value c)
           = inl (rel_CreatedAt rel).

(** An event of the CloudFormation client. *)
Definition stack_call (ev : Event) : Prop :=
  (∃ stack, ev = EvDescribeStacks stack) ∨ (∃ params, ev = EvUpdateStack params).

End ProviderTerms.

(** ** Kinds of events

    Which collaborator an event belongs to, to state what a function can
    and cannot do. *)

Module ConvoxKinds.
Import Convox.

Inductive Kind :=
| KPrint | KGetSystem | KIndexMissing | KIndexUpdate | KCreateBuildIndex
| KCreateBuildSource | KCreateBuildUrl | KStreamBuildLogs | KGetBuild
| KSleep | KGoCopyStdout | KReadFile | KNewTarWriter | KTarWithOptions
| KChdir.

#[export] Instance Kind_eq_dec : EqDecision Kind.
Proof. solve_decision. Defined.

Definition kind (ev : Event) : Kind :=
  match ev with
  | EvPrint _ => KPrint
  | EvGetSystem => KGetSystem
  | EvIndexMissing _ => KIndexMissing
  | EvIndexUpdate _ => KIndexUpdate
  | EvCreateBuildIndex _ _ _ _ _ => KCreateBuildIndex
  | EvCreateBuildSource _ _ _ _ _ => KCreateBuildSource
  | EvCreateBuildUrl _ _ _ _ _ => KCreateBuildUrl
  | EvStreamBuildLogs _ _ => KStreamBuildLogs
  | EvGetBuild _ _ => KGetBuild
  | EvSleep => KSleep
  | EvGoCopyStdout => KGoCopyStdout
  | EvReadFile _ => KReadFile
  | EvNewTarWriter => KNewTarWriter
  | EvTarWithOptions _ _ => KTarWithOptions
  | EvChdir _ => KChdir
  end.

(** The event is of one of the kinds [ks]. *)
Definition only (ks : list Kind) (ev : Event) : Prop := kind ev ∈ ks.

Definition subkinds (ks ks' : list Kind) : bool :=
  forallb (λ k, bool_decide (k ∈ ks')) ks.

(** The events a run appends to the trace. *)
Definition polling : list Kind := [KGetBuild; KSleep].
Definition finishing : list Kind :=
  [KGoCopyStdout; KStreamBuildLogs; KGetBuild; KSleep].

End ConvoxKinds.

(** ** Reasoning about monadic code *)

Ltac go_unfold :=
  unfold Go.bind, Go.ret, Go.fail, Go.panic, Go.running, Go.catch, Go.lift,
    Go.lift_err, Go.get, Go.modify in *.

Module ConvoxFacts.
Import Convox ConvoxSpec.

Lemma clock_after_polls app id n st :
  clock (after_polls app id n st) = clock st + n.
Proof.
  unfold after_polls. induction n as [|n IH]; simpl; [lia|].
  rewrite IH. lia.
Qed.

Lemma after_polls_S app id n st :
  after_polls app id (S n) st = after_polls app id n (polled app id st).
Proof.
  unfold after_polls. by rewrite Nat.iter_succ_r.
Qed.

Lemma waitForBuild_turn w fuel app id st b :
  GetBuild w app id (clock st) = inl b →
  ¬ terminal (build_Status b) →
  waitForBuild w (S fuel) app id st
  = waitForBuild w fuel app id (polled app id st).
Proof.
  intros Hget Hnt. unfold terminal in Hnt.
  cbn [waitForBuild]. unfold Sleep, emit. go_unfold. cbn.
  rewrite Hget. cbn.
  repeat case_decide; try tauto.
  unfold polled. cbn [trace clock]. by rewrite <- app_assoc.
Qed.

Lemma waitForBuild_return w fuel app id st b :
  GetBuild w app id (clock st) = inl b →
  waitForBuild w (S fuel) app id st
  = (if decide (build_Status b = "complete") then Ok (build_Release b)
     else if decide (build_Status b = "error")
          then Err (app +:+ " build failed")
     else if decide (build_Status b = "failed")
          then Err (app +:+ " build failed")
     else if decide (build_Status b = "timeout")
          then Err (app +:+ " build timed out")
     else fst (waitForBuild w fuel app id (polled app id st)),
     if decide (terminal (build_Status b)) then last_poll app id st
     else snd (waitForBuild w fuel app id (polled app id st))).
Proof.
  intros Hget. unfold terminal.
  cbn [waitForBuild]. unfold Sleep, emit. go_unfold. cbn.
  rewrite Hget. cbn.
  repeat case_decide; try tauto; try reflexivity.
  unfold polled. cbn [trace clock]. rewrite <- app_assoc. cbn.
  by destruct (waitForBuild _ _ _ _ _).
Qed.

Lemma waitForBuild_continues w app id (bs : list Build) :
  ∀ st fuel,
  (∀ i bi, bs !! i = Some bi →
     GetBuild w app id (clock st + i) = inl bi
     ∧ ¬ terminal (build_Status bi)) →
  waitForBuild w (List.length bs + fuel) app id st
  = waitForBuild w fuel app id (after_polls app id (List.length bs) st).
Proof.
  induction bs as [|b bs IH]; intros st fuel Hobs; [done|].
  destruct (Hobs 0 b eq_refl) as [Hget Hnt].
  rewrite Nat.add_0_r in Hget.
  cbn [List.length Nat.add].
  rewrite (waitForBuild_turn _ _ _ _ _ _ Hget Hnt).
  rewrite after_polls_S. apply IH.
  intros i bi Hi. specialize (Hobs (S i) bi Hi).
  cbn [polled clock]. by replace (S (clock st) + i) with (clock st + S i) by lia.
Qed.

(** C1.  Let the successive [GetBuild] polls of [waitForBuild] observe the
    records [bs], none of which has a terminal status.  Then no return has
    happened after them: the loop is still polling, one second later per
    record.  If the next record is [complete] the call returns exactly its
    [Release]; if it is [error] or [failed] the call fails with the error
    "<app> build failed"; if it is [timeout] it fails with
    "<app> build timed out". *)
Theorem waitForBuild_state_machine w app id (bs : list Build) st :
  (∀ i bi, bs !! i = Some bi →
     GetBuild w app id (clock st + i) = inl bi
     ∧ ¬ terminal (build_Status bi)) →
  let st' := after_polls app id (List.length bs) st in
  (∀ fuel, waitForBuild w (List.length bs + fuel) app id st
           = waitForBuild w fuel app id st')
  ∧ waitForBuild w (List.length bs) app id st = (Running, st')
  ∧ (∀ b fuel,
       GetBuild w app id (clock st + List.length bs) = inl b →
       let run := waitForBuild w (List.length bs + S fuel) app id st in
       (build_Status b = "complete" →
          run = (Ok (build_Release b), last_poll app id st'))
       ∧ (build_Status b = "error" ∨ build_Status b = "failed" →
          run = (Err (app +:+ " build failed"), last_poll app id st'))
       ∧ (build_Status b = "timeout" →
          run = (Err (app +:+ " build timed out"), last_poll app id st'))).
Proof.
  intros Hobs st'. split; [|split].
  - intros fuel. by apply waitForBuild_continues.
  - rewrite <- (Nat.add_0_r (List.length bs)) at 1.
    by rewrite waitForBuild_continues.
  - intros b fuel Hget run. subst run.
    rewrite waitForBuild_continues by done. fold st'.
    assert (Hget' : GetBuild w app id (clock st') = inl b).
    { subst st'. by rewrite clock_after_polls. }
    rewrite (waitForBuild_return _ _ _ _ _ _ Hget').
    unfold terminal.
    split; [|split]; intros Hs.
    + rewrite Hs. by repeat case_decide; try tauto.
    + destruct Hs as [Hs|Hs]; rewrite Hs;
        repeat case_decide; try tauto; try discriminate; reflexivity.
    + rewrite Hs.
      repeat case_decide; try tauto; try discriminate; reflexivity.
Qed.

End ConvoxFacts.

Module ConvoxFrame.
Import Convox ConvoxSpec.

Section Frame.
Context (P : Event → Prop).

Lemma emits_only_ret {A} (a : A) : emits_only P (ret a).
Proof. intros st. exists []. by rewrite app_nil_r. Qed.

Lemma emits_only_fail {A} e : emits_only P (@fail State A e).
Proof. intros st. exists []. by rewrite app_nil_r. Qed.

Lemma emits_only_panic {A} : emits_only P (@panic State A).
Proof. intros st. exists []. by rewrite app_nil_r. Qed.

Lemma emits_only_running {A} : emits_only P (@running State A).
Proof. intros st. exists []. by rewrite app_nil_r. Qed.

Lemma emits_only_get : emits_only P (@get State).
Proof. intros st. exists []. by rewrite app_nil_r. Qed.

Lemma emits_only_lift {A} (r : result A) : emits_only P (lift r).
Proof. destruct r; [apply emits_only_ret | apply emits_only_fail]. Qed.

Lemma emits_only_lift_err r : emits_only P (@lift_err State r).
Proof. destruct r; [apply emits_only_fail | apply emits_only_ret]. Qed.

Lemma emits_only_emit ev : P ev → emits_only P (emit ev).
Proof. intros Hev st. exists [ev]. split; [done|]. by constructor. Qed.

Lemma emits_only_Sleep : P EvSleep → emits_only P Sleep.
Proof. intros Hev st. exists [EvSleep]. split; [done|]. by constructor. Qed.

Lemma emits_only_bind {A B} (m : M A) (k : A → M B) :
  emits_only P m → (∀ a, emits_only P (k a)) → emits_only P (bind m k).
Proof.
  intros Hm Hk st. unfold bind.
  destruct (Hm st) as (evs & Htr & Hevs).
  destruct (m st) as [[a|e| |] st1] eqn:Hrun; cbn [snd] in *;
    try by exists evs.
  destruct (Hk a st1) as (evs' & Htr' & Hevs').
  exists (evs ++ evs'). split.
  - by rewrite Htr', Htr, app_assoc.
  - by apply Forall_app.
Qed.
End Frame.

End ConvoxFrame.

Module ConvoxDowngrade.
Import Convox ConvoxSpec ConvoxFacts ConvoxFrame.

Create HintDb frame.

Ltac frame_step :=
  first
    [ solve [auto with frame nocore]
    | apply emits_only_bind; [|intros ?]
    | apply emits_only_ret
    | apply emits_only_fail
    | apply emits_only_panic
    | apply emits_only_running
    | apply emits_only_get
    | apply emits_only_lift
    | apply emits_only_lift_err
    | apply emits_only_emit; intros ?; discriminate
    | apply emits_only_Sleep; intros ?; discriminate
    | match goal with
      | |- emits_only _ (if ?b then _ else _) => destruct b
      | |- emits_only _ (match ?x with _ => _ end) => destruct x
      end ].

Ltac frame := repeat frame_step.

Section Quiet.
Variable w : World.

Lemma waitForBuild_quiet fuel app id :
  emits_only no_missing_query (waitForBuild w fuel app id).
Proof.
  induction fuel as [|fuel IH]; cbn [waitForBuild]; frame.
Qed.
Hint Resolve waitForBuild_quiet : frame.

Lemma finishBuild_quiet fuel app build :
  emits_only no_missing_query (finishBuild w fuel app build).
Proof. unfold finishBuild. frame. Qed.
Hint Resolve finishBuild_quiet : frame.

Lemma readDockerIgnore_quiet dir :
  emits_only no_missing_query (readDockerIgnore w dir).
Proof. unfold readDockerIgnore. frame. Qed.
Hint Resolve readDockerIgnore_quiet : frame.

Lemma warnUnignoredEnv_quiet dir :
  emits_only no_missing_query (warnUnignoredEnv w dir).
Proof. unfold warnUnignoredEnv, Print. frame. Qed.
Hint Resolve warnUnignoredEnv_quiet : frame.

Lemma createTarball_quiet base :
  emits_only no_missing_query (createTarball w base).
Proof. unfold createTarball, chdir, TarWithOptions. frame. Qed.
Hint Resolve createTarball_quiet : frame.

Lemma executeBuildDir_quiet fuel dir app manifest description :
  emits_only no_missing_query
    (executeBuildDir w fuel dir app manifest description).
Proof. unfold executeBuildDir, Print. frame. Qed.
End Quiet.

(** C2.  A build from a local directory (the source has no http or https
    scheme) with the incremental flag set, against a rack whose reported
    version is below "20160226234213", runs [executeBuildDir] right after
    the [GetSystem] call, and the whole call appends no [IndexMissing]
    query to the trace.  The build is submitted as a full tarball: once
    the directory checks pass and [createTarball] has packed the archive
    [tar] of the absolute directory, the call issues the
    [CreateBuildSource] request carrying [tar] and, when the rack accepts
    it, ends as [finishBuild] ends for the build the rack returned. *)
Theorem executeBuild_downgrade w fuel source app manifest description
    scheme system st :
  url_Parse w source = Some scheme →
  scheme ≠ "http" → scheme ≠ "https" →
  flag_incremental w = true →
  GetSystem w = inl system →
  String.ltb (system_Version system) "20160226234213" = true →
  let asked := mkState (trace st ++ [EvGetSystem]) (clock st) in
  let run := executeBuild w fuel source app manifest description st in
  run = executeBuildDir w fuel source app manifest description asked
  ∧ (∃ evs, trace run.2 = trace st ++ evs ∧ Forall no_missing_query evs)
  ∧ ∀ st1 abs tar st2,
      warnUnignoredEnv w source asked = (Ok tt, st1) →
      Abs w source = inl abs →
      createTarball w abs
        (mkState (trace st1 ++ [EvPrint "Creating tarball... "]) (clock st1))
      = (Ok tar, st2) →
      let cache := negb (flag_no_cache w) in
      let request := EvCreateBuildSource app tar cache manifest description in
      let submitted :=
        mkState (trace st2 ++ [EvPrint ("OK" +:+ nl); request]) (clock st2) in
      request ∈ trace run.2
      ∧ run
        = match CreateBuildSourceProgress w app tar cache manifest
                  description with
          | inr e => (Err e, submitted)
          | inl build =>
              finishBuild w fuel app build
                (mkState (trace submitted ++ [EvPrint nl]) (clock submitted))
          end.
Proof.
  intros Hurl Hhttp Hhttps Hinc Hsys Hold asked run.
  assert (Hrun : run
    = executeBuildDir w fuel source app manifest description asked).
  { subst run asked. unfold executeBuild. rewrite Hurl.
    case_decide as Hs; [tauto|]. rewrite Hinc.
    unfold executeBuildDirIncremental at 1, emit. go_unfold. cbn.
    rewrite Hsys. cbn. by rewrite Hold. }
  split; [done|]. split.
  { rewrite Hrun.
    destruct (executeBuildDir_quiet w fuel source app manifest description
                asked) as (evs & Htr & Hevs).
    exists (EvGetSystem :: evs). split.
    - rewrite Htr. subst asked. cbn [trace]. by rewrite <- app_assoc.
    - constructor; [intros ?; discriminate | done]. }
  intros st1 abs tar st2 Hwarn Habs Htar cache request submitted.
  assert (Hsub : run
    = match CreateBuildSourceProgress w app tar cache manifest
              description with
      | inr e => (Err e, submitted)
      | inl build =>
          finishBuild w fuel app build
            (mkState (trace submitted ++ [EvPrint nl]) (clock submitted))
      end).
  { rewrite Hrun. unfold executeBuildDir.
    unfold bind at 1. rewrite Hwarn.
    unfold bind at 1. rewrite Habs. cbn [lift]. unfold ret at 1.
    unfold bind at 1. unfold Print at 1, emit at 1, modify.
    unfold bind at 1. rewrite Htar.
    unfold bind at 1. unfold Print at 1, emit at 1, modify.
    unfold bind at 1. unfold emit at 1, modify.
    unfold bind at 1. fold cache.
    destruct (CreateBuildSourceProgress w app tar cache manifest description)
      as [build|e]; cbn [lift].
    - unfold ret at 1. unfold bind at 1. unfold Print at 1, emit at 1, modify.
      subst submitted request. cbn [trace clock].
      by rewrite <- !app_assoc.
    - unfold fail. subst submitted request. cbn [trace clock].
      by rewrite <- !app_assoc. }
  split; [|exact Hsub].
  rewrite Hsub.
  assert (Hin : request ∈ trace submitted).
  { subst submitted. cbn [trace]. apply elem_of_app. right.
    apply elem_of_cons. right. constructor. }
  destruct (CreateBuildSourceProgress w app tar cache manifest description)
    as [build|e]; [|done].
  destruct (finishBuild_quiet w fuel app build
              (mkState (trace submitted ++ [EvPrint nl]) (clock submitted)))
    as (evs & Htr & _).
  rewrite Htr. cbn [trace]. apply elem_of_app. left. apply elem_of_app.
  by left.
Qed.

(** On the old rack: the (empty) directory is packed, the archive is
    submitted, and the build is followed from there. *)
Lemma executeBuild_downgrade_witness :
  let request :=
    EvCreateBuildSource "app" [] true "docker-compose.yml" "" in
  request
  ∈ trace (executeBuild Scenario.old_rack 3 "." "app" "docker-compose.yml"
             "" Scenario.st0).2
  ∧ executeBuild Scenario.old_rack 3 "." "app" "docker-compose.yml" ""
      Scenario.st0
    = finishBuild Scenario.old_rack 3 "app" (mkBuild "B1" "created" "")
        (mkState
           [EvGetSystem; EvPrint "Creating tarball... "; EvChdir ".";
            EvTarWithOptions "." (mkTarOptions [] ["."]); EvChdir "/home";
            EvPrint ("OK" +:+ nl); request; EvPrint nl] 0).
Proof.
  destruct (executeBuild_downgrade Scenario.old_rack 3 "." "app"
              "docker-compose.yml" "" "" (mkSystem "20160101000000")
              Scenario.st0)
    as (_ & _ & Hsubmit);
    [reflexivity | discriminate | discriminate | reflexivity | reflexivity
    | reflexivity |].
  apply (Hsubmit (mkState [EvGetSystem] 0) "." []
           (mkState [EvGetSystem; EvPrint "Creating tarball... ";
                     EvChdir "."; EvTarWithOptions "." (mkTarOptions [] ["."]);
                     EvChdir "/home"] 0));
    reflexivity.
Defined.

(** On the old rack the downgraded build finishes with release "R1" after
    three polls. *)
Example executeBuild_old_rack :
  (executeBuild Scenario.old_rack 3 "." "app" "docker-compose.yml" ""
     Scenario.st0).1 = Ok "R1".
Proof. vm_compute. reflexivity. Qed.

End ConvoxDowngrade.

Module ConvoxBuild.
Import Convox ConvoxSpec ConvoxFacts.

Lemma waitForBuild_state_machine_witness :
  waitForBuild Scenario.old_rack 3 "app" "B1" Scenario.st0
  = (Ok "R1",
     mkState [EvGetBuild "app" "B1"; EvSleep; EvGetBuild "app" "B1"; EvSleep;
              EvGetBuild "app" "B1"] 2).
Proof.
  destruct (waitForBuild_state_machine Scenario.old_rack "app" "B1"
              [mkBuild "B1" "building" "R1"; mkBuild "B1" "building" "R1"]
              Scenario.st0) as (_ & _ & Hnext).
  - intros [|[|i]] bi Hi; inversion Hi; subst;
      (split; [reflexivity|]); unfold terminal; cbn;
      intuition discriminate.
  - destruct (Hnext (mkBuild "B1" "complete" "R1") 0 eq_refl) as [Hc _].
    exact (Hc eq_refl).
Defined.

(** C4.  When the rack reports an empty missing set for the index,
    [uploadIndex] returns success after the query and two prints: no tar
    writer is created, no file is read and no [IndexUpdate] is issued. *)
Theorem uploadIndex_nothing_missing w index missing st :
  IndexMissing w index = inl missing →
  List.length missing = 0 →
  ∃ evs,
    uploadIndex w index st = (Ok tt, mkState (trace st ++ evs) (clock st))
    ∧ evs = [EvIndexMissing index; EvPrint "Identifying changes... ";
             EvPrint ("NONE" +:+ nl)]
    ∧ Forall (λ ev, ¬ archive_work ev) evs.
Proof.
  intros Hmiss Hlen. eexists. split; [|split; [reflexivity|]].
  - unfold uploadIndex, Print, emit. go_unfold. cbn.
    rewrite Hmiss. cbn. case_decide; [|done]. cbn.
    by rewrite <- !app_assoc.
  - unfold archive_work.
    repeat constructor; intros [?|[[? ?]|[? ?]]]; discriminate.
Qed.

Lemma uploadIndex_nothing_missing_witness :
  ∃ evs,
    uploadIndex Scenario.warm_rack ∅ Scenario.st0
    = (Ok tt, mkState ([] ++ evs) 0)
    ∧ evs = [EvIndexMissing ∅; EvPrint "Identifying changes... ";
             EvPrint ("NONE" +:+ nl)]
    ∧ Forall (λ ev, ¬ archive_work ev) evs.
Proof.
  apply (uploadIndex_nothing_missing Scenario.warm_rack ∅ [] Scenario.st0);
    reflexivity.
Defined.

(** On the rack whose log stream is broken the build completes with release
    "R1", yet [finishBuild] returns the stream's error and never polls. *)
Lemma finishBuild_log_failure_counterexample :
  finishBuild Scenario.mute_rack 1 "app" (mkBuild "B1" "created" "")
    Scenario.st0
  = (Err "broken pipe", streamed "app" "B1" Scenario.st0)
  ∧ (waitForBuild Scenario.mute_rack 1 "app" "B1" Scenario.st0).1 = Ok "R1"
  ∧ ¬ log_failure_is_not_fatal Scenario.mute_rack.
Proof.
  split; [reflexivity|]. split; [reflexivity|].
  intros Hclaim.
  specialize (Hclaim 1 "app" (mkBuild "B1" "created" "") Scenario.st0
                "broken pipe").
  cbn in Hclaim. discriminate Hclaim; done.
Qed.

(** C6, amended.  For a build with an id: a failure of [StreamBuildLogs]
    is returned at once as the error of [finishBuild], before any poll;
    when the log stream call returns without error the outcome is the
    outcome of the polling loop; and a failed [GetBuild] in any turn of the
    loop is returned at once as the error. *)
Theorem finishBuild_outcome w fuel app build st :
  build_Id build ≠ "" →
  let id := build_Id build in
  (∀ e, StreamBuildLogs w app id = Some e →
        finishBuild w fuel app build st = (Err e, streamed app id st))
  ∧ (StreamBuildLogs w app id = None →
        finishBuild w fuel app build st
        = waitForBuild w fuel app id (streamed app id st))
  ∧ (∀ st1 e, GetBuild w app id (clock st1) = inr e →
        waitForBuild w (S fuel) app id st1 = (Err e, last_poll app id st1)).
Proof.
  intros Hid id. subst id. split; [|split].
  - intros e He. unfold finishBuild. case_decide; [done|].
    unfold emit. go_unfold. cbn. rewrite He. cbn.
    unfold streamed. by rewrite <- app_assoc.
  - intros Hnone. unfold finishBuild. case_decide; [done|].
    unfold emit. go_unfold. cbn. rewrite Hnone. cbn.
    unfold streamed. rewrite <- app_assoc. cbn.
    by destruct (waitForBuild _ _ _ _ _) as [[] ?].
  - intros st1 e He. cbn [waitForBuild]. unfold emit. go_unfold. cbn.
    by rewrite He.
Qed.

Lemma finishBuild_outcome_witness :
  (∀ e, StreamBuildLogs Scenario.mute_rack "app" "B1" = Some e →
        finishBuild Scenario.mute_rack 1 "app" (mkBuild "B1" "created" "")
          Scenario.st0 = (Err e, streamed "app" "B1" Scenario.st0))
  ∧ (StreamBuildLogs Scenario.mute_rack "app" "B1" = None →
        finishBuild Scenario.mute_rack 1 "app" (mkBuild "B1" "created" "")
          Scenario.st0
        = waitForBuild Scenario.mute_rack 1 "app" "B1"
            (streamed "app" "B1" Scenario.st0))
  ∧ (∀ st1 e, GetBuild Scenario.mute_rack "app" "B1" (clock st1) = inr e →
        waitForBuild Scenario.mute_rack 2 "app" "B1" st1
        = (Err e, last_poll "app" "B1" st1)).
Proof.
  apply (finishBuild_outcome Scenario.mute_rack 1 "app"
           (mkBuild "B1" "created" "") Scenario.st0).
  discriminate.
Defined.

End ConvoxBuild.

Module ConvoxTarball.
Import Convox.

Section Tar.
Variable w : World.
Variable excludes : list string.

Lemma tarVisit_keeps include acc f (n : string) :
  n ∈ te_Name <$> acc → n ∈ te_Name <$> tarVisit w excludes include acc f.
Proof.
  intros Hn. unfold tarVisit.
  repeat case_match; try done;
    rewrite fmap_app; apply elem_of_app; by left.
Qed.

Lemma tarVisit_from include acc f x :
  x ∈ tarVisit w excludes include acc f → x ∈ acc ∨ x = f.
Proof.
  unfold tarVisit. repeat case_match; auto;
    rewrite elem_of_app, list_elem_of_singleton; tauto.
Qed.

(** The file named as the include is written even when it matches an
    exclude pattern. *)
Lemma tarVisit_include acc f :
  te_Name f ∈ te_Name <$> tarVisit w excludes (te_Name f) acc f.
Proof.
  unfold tarVisit, under.
  rewrite (bool_decide_eq_true_2 (te_Name f = te_Name f)) by done.
  rewrite orb_true_r. cbn.
  case_bool_decide as Hseen; [done|].
  rewrite fmap_app. apply elem_of_app. right. cbn. set_solver.
Qed.

Lemma walk_keeps include files acc (n : string) :
  n ∈ te_Name <$> acc →
  n ∈ te_Name <$> foldl (tarVisit w excludes include) acc files.
Proof.
  revert acc. induction files as [|f files IH]; intros acc Hn; [done|].
  cbn. apply IH. by apply tarVisit_keeps.
Qed.

Lemma walk_from include files acc x :
  x ∈ foldl (tarVisit w excludes include) acc files →
  x ∈ acc ∨ x ∈ files.
Proof.
  revert acc. induction files as [|f files IH]; intros acc Hx; [by left|].
  cbn in Hx. apply IH in Hx as [Hx|Hx]; [|set_solver].
  apply tarVisit_from in Hx as [Hx| ->]; set_solver.
Qed.

Lemma walk_include files acc f :
  f ∈ files →
  te_Name f ∈ te_Name <$> foldl (tarVisit w excludes (te_Name f)) acc files.
Proof.
  revert acc. induction files as [|g files IH]; intros acc Hf;
    [by apply elem_of_nil in Hf|].
  apply elem_of_cons in Hf as [<-|Hf]; cbn.
  - apply walk_keeps, tarVisit_include.
  - by apply IH.
Qed.

Lemma tarAll_keeps files includes acc (n : string) :
  n ∈ te_Name <$> acc → n ∈ te_Name <$> tarAll w excludes files includes acc.
Proof.
  revert acc. induction includes as [|i includes IH]; intros acc Hn;
    [done|].
  cbn. apply IH. by apply walk_keeps.
Qed.

Lemma tarAll_from files includes acc x :
  x ∈ tarAll w excludes files includes acc → x ∈ acc ∨ x ∈ files.
Proof.
  revert acc. induction includes as [|i includes IH]; intros acc Hx;
    [by left|].
  cbn in Hx. apply IH in Hx as [Hx|Hx]; [|by right].
  by apply walk_from in Hx.
Qed.

Lemma tarAll_include files includes acc f :
  f ∈ files → te_Name f ∈ includes →
  te_Name f ∈ te_Name <$> tarAll w excludes files includes acc.
Proof.
  revert acc. induction includes as [|i includes IH]; intros acc Hf Hi;
    [by apply elem_of_nil in Hi|].
  apply elem_of_cons in Hi as [<-|Hi]; cbn.
  - apply tarAll_keeps. by apply walk_include.
  - by apply IH.
Qed.
End Tar.

(** C9.  When the patterns of the ignore file match ".dockerignore" or
    "Dockerfile", [createTarball] (with the directory and the tar call in
    working order) hands [TarWithOptions] the include list
    [".", ".dockerignore", "Dockerfile"], and each of the two files that
    exists in the tree is a member of the archive it returns, taken from
    the tree. *)
Theorem createTarball_force_includes w base st cwd sym excludes :
  Getwd w = inl cwd →
  EvalSymlinks w base = inl sym →
  Chdir w sym = None →
  Chdir w cwd = None →
  TarFailure w sym = None →
  Open w (Join w sym ".dockerignore") = Opened →
  dockerignore_ReadAll w (Join w sym ".dockerignore") = inl excludes →
  Matches w ".dockerignore" excludes = inl true
  ∨ Matches w "Dockerfile" excludes = inl true →
  ∃ out st',
    createTarball w base st = (Ok out, st')
    ∧ EvTarWithOptions sym
        (mkTarOptions excludes ["."; ".dockerignore"; "Dockerfile"])
      ∈ trace st'
    ∧ ∀ f, f ∈ Tree w sym →
        te_Name f = ".dockerignore" ∨ te_Name f = "Dockerfile" →
        ∃ f', f' ∈ out ∧ f' ∈ Tree w sym ∧ te_Name f' = te_Name f.
Proof.
  intros Hcwd Hsym Hcd1 Hcd2 Htar Hopen Hread Hmatch.
  assert (Hkeep : matchesOrFalse w ".dockerignore" excludes
                  || matchesOrFalse w "Dockerfile" excludes = true).
  { unfold matchesOrFalse.
    destruct Hmatch as [Hm | Hm]; rewrite Hm; [done|]. apply orb_true_r. }
  eexists _, _. split; [|split].
  - unfold createTarball, chdir, TarWithOptions, emit. go_unfold.
    rewrite Hcwd, Hsym. cbn. rewrite Hcd1. cbn.
    rewrite Hopen, Hread. cbn. rewrite Hkeep. cbn.
    rewrite Htar. cbn. rewrite Hcd2. reflexivity.
  - cbn. apply elem_of_app. left. apply elem_of_app. right. constructor.
  - intros f Hf Hname.
    assert (Hin : te_Name f ∈
              te_Name <$> tarAll w excludes (Tree w sym)
                            ["."; ".dockerignore"; "Dockerfile"] []).
    { apply tarAll_include; [done|].
      destruct Hname as [Hn | Hn]; rewrite Hn; repeat constructor. }
    apply list_elem_of_fmap in Hin as (f' & Hname' & Hf').
    exists f'. split; [exact Hf'|]. split; [|done].
    apply tarAll_from in Hf' as [Hf'|Hf']; [|done].
    by apply elem_of_nil in Hf'.
Qed.

Lemma createTarball_force_includes_witness :
  ∃ out st',
    createTarball Scenario.self_ignoring "." Scenario.st0 = (Ok out, st')
    ∧ EvTarWithOptions "."
        (mkTarOptions [".dockerignore"] ["."; ".dockerignore"; "Dockerfile"])
      ∈ trace st'
    ∧ ∀ f, f ∈ Tree Scenario.self_ignoring "." →
        te_Name f = ".dockerignore" ∨ te_Name f = "Dockerfile" →
        ∃ f', f' ∈ out ∧ f' ∈ Tree Scenario.self_ignoring "."
              ∧ te_Name f' = te_Name f.
Proof.
  apply (createTarball_force_includes Scenario.self_ignoring "."
           Scenario.st0 "/home" "." [".dockerignore"]);
    try reflexivity.
  left. reflexivity.
Defined.

(** The archive of that directory: the ignore file is excluded by the walk
    of "." and comes back through its own include. *)
Example createTarball_self_ignoring :
  (createTarball Scenario.self_ignoring "." Scenario.st0).1
  = Ok [Scenario.dockerfile_file; Scenario.main_file;
        Scenario.dockerignore_file].
Proof. vm_compute. reflexivity. Qed.

End ConvoxTarball.

Module ConvoxIndex.
Import Convox ConvoxSpec.

Lemma one_entry_per_hash (index : Index) h :
  is_Some (index !! h) → List.length (entries_for h index) = 1.
Proof.
  intros [item Hitem]. unfold entries_for.
  rewrite <- (map_to_list_delete index h item Hitem).
  rewrite filter_cons_True by done. cbn. f_equal.
  destruct (filter _ _) as [|[k x] l] eqn:Hf; [done|].
  assert (Hin : (k, x) ∈ filter (λ kv : string * IndexItem, kv.1 = h)
                          (map_to_list (delete h index))).
  { rewrite Hf. constructor. }
  apply list_elem_of_filter in Hin as [Hk Hin]. cbn in Hk. subst k.
  apply elem_of_map_to_list in Hin. by rewrite lookup_delete_eq in Hin.
Qed.

Section Walk.
Variable w : World.
Variables (root : string) (ignore : list string).

Lemma indexWalker_file idx e data st :
  indexed_file w root ignore e data →
  ∃ item,
    indexWalker w root idx ignore e st
    = (Ok (<[sha256_hex w data := item]> idx),
       mkState (trace st ++ [EvReadFile (we_path e)]) (clock st))
    ∧ item_Size item = List.length data.
Proof.
  intros (info & rel & Hinfo & Hdir & Hrel & Hmatch & Hread).
  eexists. unfold indexWalker, emit. go_unfold.
  rewrite Hrel. cbn. rewrite Hinfo, Hdir, Hmatch. cbn.
  rewrite Hread. cbn. split; reflexivity.
Qed.

Lemma indexWalker_keeps idx idx' e st st' k :
  indexWalker w root idx ignore e st = (Ok idx', st') →
  is_Some (idx !! k) → is_Some (idx' !! k).
Proof.
  unfold indexWalker, emit. go_unfold.
  destruct (Rel w root (we_path e)); cbn; [|done].
  destruct (we_info e) as [info|]; [|done].
  destruct (info_IsDir info); [by intros [= <- <-]|].
  destruct (Matches w _ ignore) as [[]|]; cbn; [by intros [= <- <-]| |done].
  destruct (ReadFile w (we_path e)); cbn; [|done].
  intros [= <- <-] Hk. rewrite lookup_insert. by case_decide.
Qed.

Lemma walkWith_keeps entries idx index st st' k :
  walkWith w root ignore entries idx st = (Ok index, st') →
  is_Some (idx !! k) → is_Some (index !! k).
Proof.
  revert idx st. induction entries as [|e entries IH]; intros idx st.
  - by intros [= <- <-].
  - cbn [walkWith]. unfold bind at 1.
    destruct (indexWalker w root idx ignore e st) as [[idx1| | |] st1]
      eqn:Hstep; try done.
    intros Hrest Hk. eapply IH; [exact Hrest|].
    by eapply indexWalker_keeps.
Qed.

Lemma walkWith_adds entries idx index st st' e data :
  walkWith w root ignore entries idx st = (Ok index, st') →
  e ∈ entries → indexed_file w root ignore e data →
  is_Some (index !! sha256_hex w data).
Proof.
  revert idx st. induction entries as [|e' entries IH]; intros idx st;
    [by intros _ Hin; apply elem_of_nil in Hin|].
  cbn [walkWith]. unfold bind at 1.
  destruct (indexWalker w root idx ignore e' st) as [[idx1| | |] st1]
    eqn:Hstep; try done.
  intros Hrest Hin Hfile.
  apply elem_of_cons in Hin as [->|Hin]; [|by eapply IH].
  destruct (indexWalker_file idx e' data st Hfile) as (item & Hrun & _).
  rewrite Hrun in Hstep. injection Hstep as <- <-.
  eapply walkWith_keeps; [exact Hrest|].
  rewrite lookup_insert_eq. by eexists.
Qed.
End Walk.

Lemma readDockerIgnore_pure w dir :
  ∃ o, ∀ st, readDockerIgnore w dir st = (o, st).
Proof.
  unfold readDockerIgnore.
  destruct (Open w _); [by eexists | by eexists |].
  destruct (dockerignore_ReadAll w _); by eexists.
Qed.

Lemma createIndex_walk w dir st index st' root ignore :
  createIndex w dir st = (Ok index, st') →
  EvalSymlinks w dir = inl root →
  (readDockerIgnore w dir st).1 = Ok ignore →
  ∃ st1, walkWith w root ignore (Walk w root) ∅ st1 = (Ok index, st').
Proof.
  intros Hrun Hroot Hign.
  destruct (readDockerIgnore_pure w dir) as [o Ho].
  rewrite Ho in Hign. cbn in Hign. subst o.
  unfold createIndex in Hrun. unfold bind at 1 in Hrun.
  destruct (warnUnignoredEnv w dir st) as [[[]| | |] st1]; try done.
  unfold bind at 1 in Hrun. rewrite Ho in Hrun.
  unfold bind at 1 in Hrun. rewrite Hroot in Hrun. cbn in Hrun.
  by exists st1.
Qed.

(** C10.  Let [e1] and [e2] be visits of two files at different paths,
    neither a directory nor ignored, that read as the same bytes [data].
    The walk function stores both under the same key, the SHA-256 of
    [data] in hexadecimal, and the index that [createIndex] returns has
    exactly one entry for that key. *)
Theorem createIndex_dedup w dir st index st' root ignore e1 e2 data :
  createIndex w dir st = (Ok index, st') →
  EvalSymlinks w dir = inl root →
  (readDockerIgnore w dir st).1 = Ok ignore →
  e1 ∈ Walk w root → e2 ∈ Walk w root →
  we_path e1 ≠ we_path e2 →
  indexed_file w root ignore e1 data →
  indexed_file w root ignore e2 data →
  let h := sha256_hex w data in
  (∀ idx s, ∃ item1 item2,
      (indexWalker w root idx ignore e1 s).1 = Ok (<[h := item1]> idx)
      ∧ (indexWalker w root idx ignore e2 s).1 = Ok (<[h := item2]> idx))
  ∧ is_Some (index !! h)
  ∧ List.length (entries_for h index) = 1.
Proof.
  intros Hrun Hroot Hign Hin1 Hin2 Hpaths Hf1 Hf2 h.
  destruct (createIndex_walk _ _ _ _ _ _ _ Hrun Hroot Hign) as [st1 Hwalk].
  assert (Hsome : is_Some (index !! h)).
  { by eapply walkWith_adds. }
  split; [|split; [done|by apply one_entry_per_hash]].
  intros idx s.
  destruct (indexWalker_file w root ignore idx e1 data s Hf1)
    as (item1 & Hrun1 & _).
  destruct (indexWalker_file w root ignore idx e2 data s Hf2)
    as (item2 & Hrun2 & _).
  exists item1, item2. by rewrite Hrun1, Hrun2.
Qed.

(** The index of the directory with the twin files: one entry, left by the
    file visited last. *)
Example createIndex_twins :
  (createIndex Scenario.twins "." Scenario.st0).1
  = Ok {[ "sha-3" := mkIndexItem "b.txt" 420 20 3 ]}.
Proof. vm_compute. reflexivity. Qed.

End ConvoxIndex.

Module ConvoxIndexWitness.
Import Convox ConvoxSpec ConvoxIndex.

Lemma createIndex_dedup_witness :
  let h := sha256_hex Scenario.twins Scenario.abc in
  let index : Index := {[ "sha-3" := mkIndexItem "b.txt" 420 20 3 ]} in
  (∀ idx s, ∃ item1 item2,
      (indexWalker Scenario.twins "." idx []
         (mkWalkEntry "a.txt" (Some (mkFileInfo false 420 10))) s).1
      = Ok (<[h := item1]> idx)
      ∧ (indexWalker Scenario.twins "." idx []
           (mkWalkEntry "b.txt" (Some (mkFileInfo false 420 20))) s).1
        = Ok (<[h := item2]> idx))
  ∧ is_Some (index !! h)
  ∧ List.length (entries_for h index) = 1.
Proof.
  apply (createIndex_dedup Scenario.twins "." Scenario.st0
           {[ "sha-3" := mkIndexItem "b.txt" 420 20 3 ]}
           (mkState [EvReadFile "a.txt"; EvReadFile "b.txt"] 0)
           "." []
           (mkWalkEntry "a.txt" (Some (mkFileInfo false 420 10)))
           (mkWalkEntry "b.txt" (Some (mkFileInfo false 420 20)))
           Scenario.abc).
  - vm_compute. reflexivity.
  - reflexivity.
  - reflexivity.
  - cbn. repeat constructor.
  - cbn. repeat constructor.
  - discriminate.
  - do 2 eexists. repeat split; reflexivity.
  - do 2 eexists. repeat split; reflexivity.
Defined.

End ConvoxIndexWitness.

Module ProviderFacts.
Import Provider ProviderSpec.

Ltac flatten_trace := rewrite <- ?app_assoc; cbn [app].

Ltac quiet_trace :=
  eexists; split; [reflexivity|];
  split; [repeat constructor; intros ?; discriminate | done].

(** [releaseFormation] has no loop and updates no stack. *)
Lemma releaseFormation_frame w cluster app release st :
  ∃ pre, (releaseFormation w cluster app release st).2 = st ++ pre
         ∧ Forall no_update pre
         ∧ (releaseFormation w cluster app release st).1 ≠ Running.
Proof.
  unfold releaseFormation, emit. go_unfold. cbn.
  destruct (GetItem w _ release) as [drelease|e]; cbn; [|quiet_trace].
  case_decide; [quiet_trace|].
  destruct (appParams w cluster app) as [params|e]; cbn; [|quiet_trace].
  destruct (drelease !! "manifest") as [m|]; cbn; [|quiet_trace].
  destruct (buildTemplate w "app" params); cbn; flatten_trace; quiet_trace.
Qed.

Lemma ReleasePromote_after w cluster app release st :
  ReleasePromote w cluster app release st
  = match releaseFormation w cluster app release st with
    | (Ok formation, st1) =>
        let r := promote_after w cluster app release formation in
        (r.1, st1 ++ r.2)
    | (Err e, st1) =>
        let r := promote_after w cluster app release "" in
        (r.1, st1 ++ EvDebug "err" :: r.2)
    | (Panic, st1) => (Panic, st1)
    | (Running, st1) => (Running, st1)
    end.
Proof.
  unfold ReleasePromote. unfold bind at 1. unfold catch, promote_after.
  destruct (releaseFormation w cluster app release st) as [[f|e| |] st1];
    try reflexivity.
  - unfold emit. go_unfold. cbn.
    destruct (AppShow w cluster app) as [[a|] [err|]]; cbn;
      try reflexivity.
    destruct (DescribeStacks w (cluster +:+ "-" +:+ app))
      as [[|s0 rest]|e']; cbn; flatten_trace; try reflexivity.
    unfold update_request.
    destruct (UpdateStack w _); cbn; flatten_trace; reflexivity.
  - unfold emit. go_unfold. cbn.
    destruct (AppShow w cluster app) as [[a|] [err|]]; cbn;
      flatten_trace; try reflexivity.
    destruct (DescribeStacks w (cluster +:+ "-" +:+ app))
      as [[|s0 rest]|e']; cbn; flatten_trace; try reflexivity.
    unfold update_request.
    destruct (UpdateStack w _); cbn; flatten_trace; reflexivity.
Qed.

(** Every update that [promote_after] issues is built from the first
    live stack. *)
Lemma promote_after_shape w cluster app release formation params :
  EvUpdateStack params ∈ (promote_after w cluster app release formation).2 →
  ∃ s0 rest,
    DescribeStacks w (cluster +:+ "-" +:+ app) = inl (s0 :: rest)
    ∧ params = update_request cluster app release formation s0.
Proof.
  unfold promote_after.
  destruct (AppShow w cluster app) as [[a|] [err|]]; cbn;
    try (intros Hin; apply list_elem_of_singleton in Hin; discriminate).
  destruct (DescribeStacks w (cluster +:+ "-" +:+ app))
    as [[|s0 rest]|e']; cbn; intros Hin;
    repeat (apply elem_of_cons in Hin as [Hin|Hin]; [discriminate|]);
    try by apply elem_of_nil in Hin.
  apply list_elem_of_singleton in Hin. injection Hin as ->.
  by exists s0, rest.
Qed.

Lemma promote_after_issues w cluster app release formation a s0 rest :
  AppShow w cluster app = (Some a, None) →
  DescribeStacks w (cluster +:+ "-" +:+ app) = inl (s0 :: rest) →
  let params := update_request cluster app release formation s0 in
  promote_after w cluster app release formation
  = (match UpdateStack w params with None => Ok tt | Some e => Err e end,
     [EvAppShow cluster app; EvDescribeStacks (cluster +:+ "-" +:+ app);
      EvUpdateStack params]).
Proof. intros Happ Hds. unfold promote_after. by rewrite Happ, Hds. Qed.

(** C3.  [ReleasePromote] only appends to the trace.  Every [UpdateStack]
    request among the appended events carries the parameters of the first
    stack that [DescribeStacks] returned, in their order and unchanged,
    followed by the one parameter with key "Release" and the target
    release as value.  When [AppShow] and [DescribeStacks] answer (with at
    least one stack) and [releaseFormation] does not panic, exactly one
    such request is issued, as the last event. *)
Theorem ReleasePromote_parameters w cluster app release st :
  ∃ evs,
    (ReleasePromote w cluster app release st).2 = st ++ evs
    ∧ (∀ params, EvUpdateStack params ∈ evs →
         ∃ s0 rest,
           DescribeStacks w (cluster +:+ "-" +:+ app) = inl (s0 :: rest)
           ∧ usp_Parameters params
             = stack_Parameters s0 ++ [mkParameter "Release" release])
    ∧ (∀ a s0 rest,
         AppShow w cluster app = (Some a, None) →
         DescribeStacks w (cluster +:+ "-" +:+ app) = inl (s0 :: rest) →
         (releaseFormation w cluster app release st).1 ≠ Panic →
         ∃ pre params,
           evs = pre ++ [EvUpdateStack params]
           ∧ Forall no_update pre
           ∧ usp_Parameters params
             = stack_Parameters s0 ++ [mkParameter "Release" release]).
Proof.
  rewrite ReleasePromote_after.
  destruct (releaseFormation_frame w cluster app release st)
    as (pre & Hst & Hpre & Hloop).
  assert (Hquiet : ∀ params, EvUpdateStack params ∉ pre).
  { intros params Hin. rewrite Forall_forall in Hpre.
    by apply (Hpre _ Hin params). }
  assert (Hquiet' : ∀ params, EvUpdateStack params ∉ pre ++ [EvDebug "err"]).
  { intros params Hin. apply elem_of_app in Hin as [Hin|Hin];
      [by apply (Hquiet params)|].
    apply list_elem_of_singleton in Hin. discriminate. }
  destruct (releaseFormation w cluster app release st) as [[f|e| |] st1];
    cbn [fst snd] in *; subst st1; [| | |done].
  - exists (pre ++ (promote_after w cluster app release f).2).
    split; [by rewrite app_assoc|]. split.
    + intros params Hin. apply elem_of_app in Hin as [Hin|Hin];
        [by destruct (Hquiet params)|].
      apply promote_after_shape in Hin as (s0 & rest & Hds & ->).
      by exists s0, rest.
    + intros a s0 rest Happ Hds _.
      rewrite (promote_after_issues _ _ _ _ _ _ _ _ Happ Hds). cbn [snd].
      exists (pre ++ [EvAppShow cluster app;
                      EvDescribeStacks (cluster +:+ "-" +:+ app)]),
        (update_request cluster app release f s0).
      split; [by rewrite <- app_assoc|]. split; [|done].
      apply Forall_app. split; [done|].
      repeat constructor; intros ?; discriminate.
  - exists ((pre ++ [EvDebug "err"])
            ++ (promote_after w cluster app release "").2).
    split; [by rewrite <- !app_assoc|]. split.
    + intros params Hin. apply elem_of_app in Hin as [Hin|Hin];
        [by destruct (Hquiet' params)|].
      apply promote_after_shape in Hin as (s0 & rest & Hds & ->).
      by exists s0, rest.
    + intros a s0 rest Happ Hds _.
      rewrite (promote_after_issues _ _ _ _ _ _ _ _ Happ Hds). cbn [snd].
      exists (pre ++ [EvDebug "err"; EvAppShow cluster app;
                      EvDescribeStacks (cluster +:+ "-" +:+ app)]),
        (update_request cluster app release "" s0).
      split; [by rewrite <- !app_assoc|]. split; [|done].
      apply Forall_app. split; [done|].
      repeat constructor; intros ?; discriminate.
  - exists pre. split; [done|]. split.
    + intros params Hin. by destruct (Hquiet params).
    + intros a s0 rest _ _ Hp. done.
Qed.

End ProviderFacts.

Module ProviderPromote.
Import Provider ProviderSpec ProviderFacts.

(** The example of the spec: live parameters [InstanceType = t2.small],
    release "R9". *)
Lemma ReleasePromote_parameters_witness :
  ∃ pre params,
    (ReleasePromote
       (Scenario.cloud (inl Scenario.full_release) Scenario.one_stack
          "RBBBBBBBBB") "rack" "app" "R9" []).2
    = pre ++ [EvUpdateStack params]
    ∧ Forall no_update pre
    ∧ usp_Parameters params
      = [mkParameter "InstanceType" "t2.small"; mkParameter "Release" "R9"].
Proof.
  destruct (ReleasePromote_parameters
              (Scenario.cloud (inl Scenario.full_release) Scenario.one_stack
                 "RBBBBBBBBB") "rack" "app" "R9" [])
    as (evs & Hevs & _ & Hissue).
  destruct (Hissue "app" (mkStack Scenario.live_parameters) [])
    as (pre & params & Heq & Hpre & Hparams);
    [reflexivity | reflexivity | vm_compute; discriminate |].
  exists pre, params. rewrite Hevs, Heq. done.
Defined.

(** C7.  When the release record has no artifact identifier (no "ami"
    attribute, or an empty one), [releaseFormation] does fail with
    "invalid ami", but [ReleasePromote] only prints that error: with
    [AppShow] and [DescribeStacks] answering, it issues the stack update
    with an empty template body and returns the result of that update. *)
Theorem ReleasePromote_invalid_ami_goes_on
    w cluster app release st drelease a s0 rest :
  GetItem w (releasesTable cluster app) release = inl drelease →
  coalesce (drelease !! "ami") "" = "" →
  AppShow w cluster app = (Some a, None) →
  DescribeStacks w (cluster +:+ "-" +:+ app) = inl (s0 :: rest) →
  let params := update_request cluster app release "" s0 in
  releaseFormation w cluster app release st
  = (Err "invalid ami", st ++ [EvGetItem (releasesTable cluster app) release])
  ∧ ReleasePromote w cluster app release st
    = (match UpdateStack w params with None => Ok tt | Some e => Err e end,
       st ++ [EvGetItem (releasesTable cluster app) release; EvDebug "err";
              EvAppShow cluster app;
              EvDescribeStacks (cluster +:+ "-" +:+ app);
              EvUpdateStack params]).
Proof.
  intros Hget Hami Happ Hds params.
  assert (Hrf : releaseFormation w cluster app release st
    = (Err "invalid ami",
       st ++ [EvGetItem (releasesTable cluster app) release])).
  { unfold releaseFormation, emit. go_unfold. cbn.
    rewrite Hget. cbn. rewrite Hami. by case_decide. }
  split; [done|].
  rewrite ReleasePromote_after, Hrf.
  rewrite (promote_after_issues _ _ _ _ _ _ _ _ Happ Hds). cbn [fst snd].
  by rewrite <- app_assoc.
Qed.

Lemma ReleasePromote_invalid_ami_goes_on_witness :
  let w := Scenario.cloud (inl Scenario.release_without_ami)
             Scenario.one_stack "RBBBBBBBBB" in
  releaseFormation w "rack" "app" "RAAAAAAAAA" []
  = (Err "invalid ami", [EvGetItem "rack-app-releases" "RAAAAAAAAA"])
  ∧ ReleasePromote w "rack" "app" "RAAAAAAAAA" []
    = (Ok tt,
       [EvGetItem "rack-app-releases" "RAAAAAAAAA"; EvDebug "err";
        EvAppShow "rack" "app"; EvDescribeStacks "rack-app";
        EvUpdateStack
          (mkUpdateStackParams "rack-app" ""
             [mkParameter "InstanceType" "t2.small";
              mkParameter "Release" "RAAAAAAAAA"])]).
Proof.
  apply (ReleasePromote_invalid_ami_goes_on
           (Scenario.cloud (inl Scenario.release_without_ami)
              Scenario.one_stack "RBBBBBBBBB")
           "rack" "app" "RAAAAAAAAA" [] Scenario.release_without_ami "app"
           (mkStack Scenario.live_parameters) []);
    reflexivity.
Defined.

End ProviderPromote.

Module ProviderStore.
Import Provider ProviderSpec.

(** C8.  [ReleaseCreate] issues one [PutItem] keyed by the ami.  The only
    time-like attribute it writes itself is "created-at" with the literal
    value "now"; the clock is not read.  Every option of the caller is
    written as an attribute, and an attribute named "created" is in the
    item only when the caller passed it, with the caller's value. *)
Theorem ReleaseCreate_placeholder_timestamp w cluster app ami options st :
  let table := releasesTable cluster app in
  let attributes := created_attributes ami options in
  ReleaseCreate w cluster app ami options st
  = (match PutItem w table ami "" attributes with
     | None => Ok tt
     | Some e => Err e
     end, st ++ [EvPutItem table ami "" attributes])
  ∧ NewStringAttribute "created-at" "now" ∈ attributes
  ∧ (∀ k v, options !! k = Some v → NewStringAttribute k v ∈ attributes)
  ∧ (∀ a, a ∈ attributes → attr_Name a = "created" →
       options !! "created" = Some (attr_Value a)).
Proof.
  intros table attributes. split; [|split; [|split]].
  - subst table attributes.
    unfold ReleaseCreate, created_attributes, emit. go_unfold. cbn.
    by destruct (PutItem w _ ami "" _).
  - subst attributes. unfold created_attributes. cbn. repeat constructor.
  - intros k v Hkv. subst attributes. unfold created_attributes.
    apply elem_of_app. right.
    apply list_elem_of_fmap. exists (k, v). split; [done|].
    by apply elem_of_map_to_list.
  - intros a Hin Hname. subst attributes. unfold created_attributes in Hin.
    apply elem_of_app in Hin as [Hin|Hin].
    + repeat (apply elem_of_cons in Hin as [Hin|Hin];
              [subst a; discriminate|]).
      by apply elem_of_nil in Hin.
    + apply list_elem_of_fmap in Hin as ([k v] & -> & Hin).
      apply elem_of_map_to_list in Hin. cbn in *. by subst k.
Qed.

(** A release created with no option of the caller: the stored item has
    the placeholder under "created-at" and no "created" attribute. *)
Lemma ReleaseCreate_placeholder_timestamp_witness :
  ReleaseCreate
    (Scenario.cloud (inl Scenario.created_release) Scenario.one_stack
       "RBBBBBBBBB") "rack" "app" "ami-x" ∅ []
  = (Ok tt,
     [EvPutItem "rack-app-releases" "ami-x" ""
        [NewStringAttribute "ami" "ami-x";
         NewStringAttribute "created-at" "now"]]).
Proof.
  destruct (ReleaseCreate_placeholder_timestamp
              (Scenario.cloud (inl Scenario.created_release)
                 Scenario.one_stack "RBBBBBBBBB")
              "rack" "app" "ami-x" ∅ []) as [Hrun _].
  exact Hrun.
Defined.

(** The caller decides the "created" attribute when it passes one. *)
Example ReleaseCreate_caller_timestamp :
  ReleaseCreate
    (Scenario.cloud (inl Scenario.created_release) Scenario.one_stack
       "RBBBBBBBBB") "rack" "app" "ami-x" {[ "created" := "yesterday" ]} []
  = (Ok tt,
     [EvPutItem "rack-app-releases" "ami-x" ""
        [NewStringAttribute "ami" "ami-x";
         NewStringAttribute "created-at" "now";
         NewStringAttribute "created" "yesterday"]]).
Proof. vm_compute. reflexivity. Qed.

(** [ReleaseList] reads "created": on the item that [ReleaseCreate] left
    it dereferences nil. *)
Example ReleaseList_after_create :
  ReleaseList
    (Scenario.cloud (inl Scenario.created_release) Scenario.one_stack
       "RBBBBBBBBB") "rack" "app" []
  = (Panic, [EvQueryTable "rack-app-releases" "app"]).
Proof. vm_compute. reflexivity. Qed.

(** The record that [ReleaseCreate] left has no "created" attribute, and
    its copy has none either: the placeholder under "created-at" is carried
    through. *)
Example ReleaseCopy_of_created_release :
  ReleaseCopy
    (Scenario.cloud (inl Scenario.created_release) Scenario.one_stack
       "RBBBBBBBBB") "rack" "app" "ami-x" []
  = (Ok "RBBBBBBBBB",
     [EvGetItem "rack-app-releases" "ami-x"; EvDebug "drel";
      EvPutItem "rack-app-releases" "RBBBBBBBBB" ""
        [NewStringAttribute "created-at" "now";
         NewStringAttribute "id" "RBBBBBBBBB";
         NewStringAttribute "ami" "ami-x"]]).
Proof. vm_compute. reflexivity. Qed.




(** The copy of the full record: new id, new stamp, the rest as it was. *)
Example ReleaseCopy_full_release :
  ReleaseCopy
    (Scenario.cloud (inl Scenario.full_release) Scenario.one_stack
       "RBBBBBBBBB") "rack" "app" "RAAAAAAAAA" []
  = (Ok "RBBBBBBBBB",
     [EvGetItem "rack-app-releases" "RAAAAAAAAA"; EvDebug "drel";
      EvPutItem "rack-app-releases" "RBBBBBBBBB" ""
        [NewStringAttribute "created" "20160226.234213.000000000";
         NewStringAttribute "manifest" "web: {}";
         NewStringAttribute "id" "RBBBBBBBBB";
         NewStringAttribute "ami" "ami-x";
         NewStringAttribute "foo" "bar"]]).
Proof. vm_compute. reflexivity. Qed.

End ProviderStore.

(** ** What each function can emit *)

Module ConvoxEmits.
Import Convox ConvoxSpec ConvoxKinds ConvoxFrame.

Lemma subkinds_spec ks ks' k : subkinds ks ks' = true → k ∈ ks → k ∈ ks'.
Proof.
  unfold subkinds. rewrite forallb_forall. intros Hall Hk.
  apply list_elem_of_In in Hk. specialize (Hall k Hk).
  by apply bool_decide_eq_true_1 in Hall.
Qed.

Lemma emits_only_mono {A} (P Q : Event → Prop) (m : M A) :
  (∀ ev, P ev → Q ev) → emits_only P m → emits_only Q m.
Proof.
  intros HPQ Hm st. destruct (Hm st) as (evs & Htr & Hevs).
  exists evs. split; [done|]. eapply Forall_impl; eauto.
Qed.

Lemma emits_only_kinds {A} ks ks' (m : M A) :
  subkinds ks ks' = true → emits_only (only ks) m → emits_only (only ks') m.
Proof.
  intros Hsub. apply emits_only_mono. intros ev. by apply subkinds_spec.
Qed.

Ltac kind_in :=
  unfold only; apply (bool_decide_unpack _); vm_compute; exact I.

Create HintDb kinds.

Ltac emits_step :=
  first
    [ solve [auto with kinds nocore]
    | apply emits_only_bind; [|intros ?]
    | apply emits_only_ret
    | apply emits_only_fail
    | apply emits_only_panic
    | apply emits_only_running
    | apply emits_only_get
    | apply emits_only_lift
    | apply emits_only_lift_err
    | apply emits_only_emit; kind_in
    | apply emits_only_Sleep; kind_in
    | match goal with
      | |- emits_only _ (if ?b then _ else _) => destruct b
      | |- emits_only _ (match ?x with _ => _ end) => destruct x
      end ].

Ltac emits := repeat emits_step.

Ltac by_kinds lem := eapply emits_only_kinds; [|apply lem]; reflexivity.

Lemma waitForBuild_emits w fuel app id :
  emits_only (only polling) (waitForBuild w fuel app id).
Proof. induction fuel as [|fuel IH]; cbn [waitForBuild]; emits. Qed.

#[export] Hint Extern 1 (emits_only (only _) (waitForBuild _ _ _ _)) =>
  by_kinds waitForBuild_emits : kinds.

Lemma finishBuild_emits w fuel app build :
  emits_only (only finishing) (finishBuild w fuel app build).
Proof. unfold finishBuild. emits. Qed.

#[export] Hint Extern 1 (emits_only (only _) (finishBuild _ _ _ _)) =>
  by_kinds finishBuild_emits : kinds.

Lemma readDockerIgnore_emits w dir :
  emits_only (only []) (readDockerIgnore w dir).
Proof. unfold readDockerIgnore. emits. Qed.

#[export] Hint Extern 1 (emits_only (only _) (readDockerIgnore _ _)) =>
  by_kinds readDockerIgnore_emits : kinds.

Lemma warnUnignoredEnv_emits w dir :
  emits_only (only [KPrint]) (warnUnignoredEnv w dir).
Proof. unfold warnUnignoredEnv, Print. emits. Qed.

#[export] Hint Extern 1 (emits_only (only _) (warnUnignoredEnv _ _)) =>
  by_kinds warnUnignoredEnv_emits : kinds.

Lemma indexWalker_emits w root index ignore e :
  emits_only (only [KReadFile]) (indexWalker w root index ignore e).
Proof. unfold indexWalker. emits. Qed.

#[export] Hint Extern 1 (emits_only (only _) (indexWalker _ _ _ _ _)) =>
  by_kinds indexWalker_emits : kinds.

Lemma walkWith_emits w root ignore entries index :
  emits_only (only [KReadFile]) (walkWith w root ignore entries index).
Proof.
  revert index. induction entries as [|e entries IH]; intros index;
    cbn [walkWith]; emits.
Qed.

#[export] Hint Extern 1 (emits_only (only _) (walkWith _ _ _ _ _)) =>
  by_kinds walkWith_emits : kinds.

Lemma createIndex_emits w dir :
  emits_only (only [KPrint; KReadFile]) (createIndex w dir).
Proof. unfold createIndex. emits. Qed.

#[export] Hint Extern 1 (emits_only (only _) (createIndex _ _)) =>
  by_kinds createIndex_emits : kinds.

Lemma packMissing_emits w index missing tw :
  emits_only (only [KReadFile]) (packMissing w index missing tw).
Proof.
  revert tw. induction missing as [|m missing IH]; intros tw;
    cbn [packMissing]; emits.
Qed.

#[export] Hint Extern 1 (emits_only (only _) (packMissing _ _ _ _)) =>
  by_kinds packMissing_emits : kinds.

Lemma uploadIndex_emits w index :
  emits_only
    (only [KIndexMissing; KPrint; KNewTarWriter; KReadFile; KIndexUpdate])
    (uploadIndex w index).
Proof. unfold uploadIndex, Print. emits. Qed.

#[export] Hint Extern 1 (emits_only (only _) (uploadIndex _ _)) =>
  by_kinds uploadIndex_emits : kinds.

Lemma createTarball_emits w base :
  emits_only (only [KChdir; KTarWithOptions]) (createTarball w base).
Proof. unfold createTarball, chdir, TarWithOptions. emits. Qed.

#[export] Hint Extern 1 (emits_only (only _) (createTarball _ _)) =>
  by_kinds createTarball_emits : kinds.

Lemma executeBuildDir_emits w fuel dir app manifest description :
  emits_only
    (only ([KPrint; KChdir; KTarWithOptions; KCreateBuildSource] ++ finishing))
    (executeBuildDir w fuel dir app manifest description).
Proof. unfold executeBuildDir, Print. emits. Qed.

Lemma executeBuildUrl_emits w fuel url app manifest description :
  emits_only (only (KCreateBuildUrl :: finishing))
    (executeBuildUrl w fuel url app manifest description).
Proof. unfold executeBuildUrl. emits. Qed.

End ConvoxEmits.

(** ** Further properties of cmd/convox/builds.go *)

Module ConvoxStrategies.
Import Convox ConvoxSpec ConvoxKinds ConvoxFrame ConvoxEmits.

(** X1.  A source with an http or https scheme is built from the URL,
    whatever the incremental flag says: the call is [executeBuildUrl], and
    all it does is the [CreateBuildUrl] request followed by the log stream
    and the status polls.  No file is read, no archive is made, the rack
    version is not asked for. *)
Theorem executeBuild_url_is_remote_only
    w fuel source app manifest description scheme st :
  url_Parse w source = Some scheme →
  scheme = "http" ∨ scheme = "https" →
  executeBuild w fuel source app manifest description st
  = executeBuildUrl w fuel source app manifest description st
  ∧ ∃ evs,
      trace (executeBuild w fuel source app manifest description st).2
      = trace st ++ evs
      ∧ Forall (only (KCreateBuildUrl :: finishing)) evs.
Proof.
  intros Hurl Hscheme.
  assert (Hrun : executeBuild w fuel source app manifest description st
                 = executeBuildUrl w fuel source app manifest description st).
  { unfold executeBuild. rewrite Hurl. by case_decide. }
  split; [done|]. rewrite Hrun. apply executeBuildUrl_emits.
Qed.

(** X2.  When the rack answers the build request with a build that has no
    id, the build fails with "unable to fetch build id" right after the
    request: the log stream is not opened and the status is not polled. *)
Theorem executeBuildUrl_without_build_id
    w fuel url app manifest description build st :
  CreateBuildUrl w app url (negb (flag_no_cache w)) manifest description
  = inl build →
  build_Id build = "" →
  executeBuildUrl w fuel url app manifest description st
  = (Err "unable to fetch build id",
     mkState (trace st ++ [EvCreateBuildUrl app url (negb (flag_no_cache w))
                             manifest description]) (clock st)).
Proof.
  intros Hcreate Hid.
  unfold executeBuildUrl, finishBuild, emit. go_unfold. cbn.
  rewrite Hcreate. cbn. by case_decide.
Qed.

(** X3.  An incremental build against a rack that supports it (reported
    version not below "20160226234213") never packs the directory: beyond
    the version query it prints, reads files, asks for the missing hashes,
    uploads them, submits the index and follows the build, and it issues
    no [TarWithOptions], no [Chdir] and no [CreateBuildSource]. *)
Theorem executeBuildDirIncremental_never_packs
    w fuel dir app manifest description system st :
  GetSystem w = inl system →
  String.ltb (system_Version system) "20160226234213" = false →
  ∃ evs,
    trace (executeBuildDirIncremental w fuel dir app manifest description
             st).2 = trace st ++ EvGetSystem :: evs
    ∧ Forall (only ([KPrint; KReadFile; KIndexMissing; KNewTarWriter;
                     KIndexUpdate; KCreateBuildIndex] ++ finishing)) evs.
Proof.
  intros Hsys Hnew.
  set (ks := [KPrint; KReadFile; KIndexMissing; KNewTarWriter;
              KIndexUpdate; KCreateBuildIndex] ++ finishing).
  pose (rest :=
    (let cache := negb (flag_no_cache w) in
     let* dir := lift (Abs w dir) in
     Print "Analyzing source... ";;
     let* index := createIndex w dir in
     Print ("OK" +:+ nl);;
     uploadIndex w index;;
     Print "Starting build... ";;
     emit (EvCreateBuildIndex app index cache manifest description);;
     let* build :=
       lift (CreateBuildIndex w app index cache manifest description) in
     Print ("OK" +:+ nl);;
     finishBuild w fuel app build) : M string).
  assert (Hrest : emits_only (only ks) rest).
  { subst ks rest. unfold Print. cbn zeta. emits. }
  assert (Hrun : executeBuildDirIncremental w fuel dir app manifest
                   description st
                 = rest (mkState (trace st ++ [EvGetSystem]) (clock st))).
  { subst rest. unfold executeBuildDirIncremental.
    unfold bind at 1. unfold emit, modify. unfold bind at 1.
    rewrite Hsys. cbn [lift]. unfold ret at 1. by rewrite Hnew. }
  destruct (Hrest (mkState (trace st ++ [EvGetSystem]) (clock st)))
    as (evs & Htr & Hevs).
  exists evs. split; [|done].
  rewrite Hrun, Htr. cbn [trace]. by rewrite <- app_assoc.
Qed.

End ConvoxStrategies.

Module ConvoxStrategiesWitness.
Import Convox ConvoxSpec ConvoxKinds ConvoxStrategies.

Lemma executeBuild_url_is_remote_only_witness :
  executeBuild Variation.by_url 3 "https://example.org/app.git" "app"
    "docker-compose.yml" "" Scenario.st0
  = executeBuildUrl Variation.by_url 3 "https://example.org/app.git" "app"
      "docker-compose.yml" "" Scenario.st0
  ∧ ∃ evs,
      trace (executeBuild Variation.by_url 3 "https://example.org/app.git"
               "app" "docker-compose.yml" "" Scenario.st0).2 = [] ++ evs
      ∧ Forall (only (KCreateBuildUrl :: finishing)) evs.
Proof.
  apply (executeBuild_url_is_remote_only Variation.by_url 3
           "https://example.org/app.git" "app" "docker-compose.yml" ""
           "https" Scenario.st0); [reflexivity|].
  right. reflexivity.
Defined.

Lemma executeBuildUrl_without_build_id_witness :
  executeBuildUrl Variation.no_build_id 3 "https://example.org/app.git"
    "app" "docker-compose.yml" "" Scenario.st0
  = (Err "unable to fetch build id",
     mkState [EvCreateBuildUrl "app" "https://example.org/app.git" true
                "docker-compose.yml" ""] 0).
Proof.
  apply (executeBuildUrl_without_build_id Variation.no_build_id 3
           "https://example.org/app.git" "app" "docker-compose.yml" ""
           (mkBuild "" "created" "") Scenario.st0); reflexivity.
Defined.

Lemma executeBuildDirIncremental_never_packs_witness :
  ∃ evs,
    trace (executeBuildDirIncremental Scenario.warm_rack 3 "." "app"
             "docker-compose.yml" "" Scenario.st0).2
    = [] ++ EvGetSystem :: evs
    ∧ Forall (only ([KPrint; KReadFile; KIndexMissing; KNewTarWriter;
                     KIndexUpdate; KCreateBuildIndex] ++ finishing)) evs.
Proof.
  apply (executeBuildDirIncremental_never_packs Scenario.warm_rack 3 "."
           "app" "docker-compose.yml" "" (mkSystem "20170101000000")
           Scenario.st0); reflexivity.
Defined.

End ConvoxStrategiesWitness.

Module ConvoxUpload.
Import Convox ConvoxSpec ConvoxTerms ConvoxKinds ConvoxFrame ConvoxEmits.

Lemma packMissing_ok w index missing :
  ∀ tw st a st',
  packMissing w index missing tw st = (Ok a, st') →
  ∃ new, a = tw ++ new ∧ Forall2 (packed w index) missing new.
Proof.
  induction missing as [|m missing IH]; intros tw st a st'.
  - intros [= <- <-]. exists []. by rewrite app_nil_r.
  - cbn [packMissing]. fold (path_of index m). unfold emit. go_unfold. cbn.
    destruct (ReadFile w (path_of index m)) as [data|e] eqn:Hread; cbn;
      [|done].
    intros Hrest. apply IH in Hrest as (new & -> & Hnew).
    exists (mkTarEntry m 384 data :: new). split.
    + by rewrite <- app_assoc.
    + constructor; [done|exact Hnew].
Qed.

Lemma packMissing_all w index (contents : string → bytes) missing :
  ∀ tw st,
  (∀ m, m ∈ missing → ReadFile w (path_of index m) = inl (contents m)) →
  packMissing w index missing tw st
  = (Ok (tw ++ ((λ m, mkTarEntry m 384 (contents m)) <$> missing)),
     mkState (trace st ++ (EvReadFile <$> (path_of index <$> missing)))
       (clock st)).
Proof.
  induction missing as [|m missing IH]; intros tw st Hread.
  - cbn. unfold ret. rewrite !app_nil_r. by destruct st.
  - cbn [packMissing]. fold (path_of index m). unfold emit. go_unfold. cbn.
    rewrite (Hread m) by constructor. cbn.
    rewrite IH by (intros m' Hm'; apply Hread; by constructor).
    cbn. by rewrite <- !app_assoc.
Qed.

(** X4.  When the rack misses some hashes and every file behind them can
    be read, [uploadIndex] creates one archive with one member per missing
    hash, in the order of the answer, each named by the hash with mode
    0600 and the bytes of the file, sends it in a single [IndexUpdate] and
    returns what that call returns. *)
Theorem uploadIndex_sends_missing w index missing contents st :
  IndexMissing w index = inl missing →
  missing ≠ [] →
  (∀ m, m ∈ missing → ReadFile w (path_of index m) = inl (contents m)) →
  let a := (λ m, mkTarEntry m 384 (contents m)) <$> missing in
  uploadIndex w index st
  = (match IndexUpdate w a with None => Ok tt | Some e => Err e end,
     mkState
       (trace st
        ++ [EvIndexMissing index; EvPrint "Identifying changes... ";
            EvPrint (pretty (List.length missing) +:+ " files" +:+ nl);
            EvNewTarWriter]
        ++ (EvReadFile <$> (path_of index <$> missing))
        ++ [EvIndexUpdate a]
        ++ match IndexUpdate w a with None => [EvPrint nl] | Some _ => [] end)
       (clock st)).
Proof.
  intros Hmiss Hne Hread a.
  unfold uploadIndex. unfold bind at 1. unfold emit at 1, modify.
  unfold bind at 1. rewrite Hmiss. cbn [lift]. unfold ret at 1.
  unfold bind at 1. unfold Print at 1, emit at 1, modify.
  case_decide as Hlen; [by destruct missing|].
  unfold bind at 1. unfold Print at 1, emit at 1, modify.
  unfold bind at 1. unfold emit at 1, modify.
  unfold bind at 1.
  rewrite (packMissing_all w index contents) by done.
  cbn [app]. fold a.
  unfold emit, Print, emit. go_unfold. cbn.
  destruct (IndexUpdate w a); cbn; by rewrite <- !app_assoc.
Qed.

Lemma emits_only_bind_ok {A B} (P : Event → Prop) (m : M A) (k : A → M B) :
  emits_only P m →
  (∀ a st st', m st = (Ok a, st') → emits_only P (k a)) →
  emits_only P (bind m k).
Proof.
  intros Hm Hk st. unfold bind.
  destruct (Hm st) as (evs & Htr & Hevs).
  destruct (m st) as [[a|e| |] st1] eqn:Hrun; cbn [snd] in *;
    try by exists evs.
  destruct (Hk a st st1 Hrun st1) as (evs' & Htr' & Hevs').
  exists (evs ++ evs'). split.
  - by rewrite Htr', Htr, app_assoc.
  - by apply Forall_app.
Qed.

Lemma lift_ok {A} (r : result A) (a : A) (st st' : State) :
  lift r st = (Ok a, st') → r = inl a.
Proof. destruct r; cbn; by intros [= ->]. Qed.

(** X5.  [uploadIndex] never uploads a partial archive: an [IndexUpdate]
    it issues carries exactly one member for each hash the rack reported
    missing, each read successfully from disk. *)
Theorem uploadIndex_uploads_only_what_it_read w index st :
  ∃ evs,
    trace (uploadIndex w index st).2 = trace st ++ evs
    ∧ ∀ a, EvIndexUpdate a ∈ evs →
        ∃ missing,
          IndexMissing w index = inl missing ∧ missing ≠ []
          ∧ Forall2 (packed w index) missing a.
Proof.
  set (Q := λ ev, ∀ a, ev = EvIndexUpdate a →
              ∃ missing, IndexMissing w index = inl missing ∧ missing ≠ []
                         ∧ Forall2 (packed w index) missing a).
  assert (Hother : ∀ ev, kind ev ≠ KIndexUpdate → Q ev).
  { intros ev Hk a ->. by destruct Hk. }
  assert (Hrun : emits_only Q (uploadIndex w index)).
  { unfold uploadIndex, Print.
    apply emits_only_bind; [by apply emits_only_emit, Hother|intros _].
    apply emits_only_bind_ok; [apply emits_only_lift|].
    intros missing s s' Hmiss%lift_ok.
    apply emits_only_bind; [by apply emits_only_emit, Hother|intros _].
    case_decide as Hlen.
    { apply emits_only_bind; [by apply emits_only_emit, Hother|intros _].
      apply emits_only_ret. }
    apply emits_only_bind; [by apply emits_only_emit, Hother|intros _].
    apply emits_only_bind; [by apply emits_only_emit, Hother|intros _].
    apply emits_only_bind_ok.
    { eapply emits_only_mono; [|apply packMissing_emits].
      intros ev Hev. apply Hother. unfold only in Hev.
      apply list_elem_of_singleton in Hev. by rewrite Hev. }
    intros buf s1 s1' (new & -> & Hnew)%packMissing_ok.
    apply emits_only_bind.
    { apply emits_only_emit. intros a [= <-]. exists missing.
      split; [done|]. split; [|done]. intros ->. by apply Hlen. }
    intros _.
    apply emits_only_bind; [apply emits_only_lift_err|intros _].
    apply emits_only_bind; [by apply emits_only_emit, Hother|intros _].
    apply emits_only_ret. }
  destruct (Hrun st) as (evs & Htr & Hevs).
  exists evs. split; [done|]. intros a Hin.
  rewrite Forall_forall in Hevs. by apply (Hevs _ Hin a).
Qed.

End ConvoxUpload.

Module ConvoxUploadWitness.
Import Convox ConvoxSpec ConvoxTerms ConvoxUpload.

Lemma uploadIndex_sends_missing_witness :
  uploadIndex Variation.cold_rack Variation.twin_index Scenario.st0
  = (Ok tt,
     mkState
       [EvIndexMissing Variation.twin_index;
        EvPrint "Identifying changes... ";
        EvPrint ("1 files" +:+ nl); EvNewTarWriter; EvReadFile "b.txt";
        EvIndexUpdate [mkTarEntry "sha-3" 384 Scenario.abc];
        EvPrint nl] 0).
Proof.
  apply (uploadIndex_sends_missing Variation.cold_rack Variation.twin_index
           ["sha-3"] (λ _, Scenario.abc) Scenario.st0).
  - reflexivity.
  - discriminate.
  - intros m Hm. apply list_elem_of_singleton in Hm. subst m.
    vm_compute. reflexivity.
Defined.

Lemma uploadIndex_uploads_only_what_it_read_witness :
  ∃ evs,
    trace (uploadIndex Variation.cold_rack Variation.twin_index
             Scenario.st0).2 = [] ++ evs
    ∧ ∀ a, EvIndexUpdate a ∈ evs →
        ∃ missing,
          IndexMissing Variation.cold_rack Variation.twin_index = inl missing
          ∧ missing ≠ []
          ∧ Forall2 (packed Variation.cold_rack Variation.twin_index)
              missing a.
Proof.
  exact (uploadIndex_uploads_only_what_it_read Variation.cold_rack
           Variation.twin_index Scenario.st0).
Defined.

End ConvoxUploadWitness.

Module ConvoxIndexMore.
Import Convox ConvoxSpec ConvoxTerms ConvoxKinds ConvoxFrame ConvoxEmits
  ConvoxUpload ConvoxIndex.

Lemma indexWalker_ok w root ignore idx e st idx' st' :
  indexWalker w root idx ignore e st = (Ok idx', st') →
  idx' = idx
  ∨ ∃ h item, describes w root ignore h item e ∧ idx' = <[h := item]> idx.
Proof.
  unfold indexWalker, emit. go_unfold.
  destruct (Rel w root (we_path e)) as [rel|] eqn:Hrel; cbn; [|done].
  destruct (we_info e) as [info|] eqn:Hinfo; [|done].
  destruct (info_IsDir info) eqn:Hdir; [intros [= <- <-]; by left|].
  destruct (Matches w rel ignore) as [[]|] eqn:Hmatch; cbn;
    [intros [= <- <-]; by left| |done].
  destruct (ReadFile w (we_path e)) as [data|] eqn:Hread; cbn; [|done].
  intros [= <- <-]. right.
  exists (sha256_hex w data),
    (mkIndexItem rel (info_Mode info) (info_ModTime info) (List.length data)).
  split; [|done]. by exists info, data.
Qed.

Lemma walkWith_sound w root ignore (all : list WalkEntry) entries :
  ∀ idx st index st',
  walkWith w root ignore entries idx st = (Ok index, st') →
  (∀ e, e ∈ entries → e ∈ all) →
  (∀ h item, idx !! h = Some item →
     ∃ e, e ∈ all ∧ describes w root ignore h item e) →
  ∀ h item, index !! h = Some item →
    ∃ e, e ∈ all ∧ describes w root ignore h item e.
Proof.
  induction entries as [|e entries IH]; intros idx st index st'.
  - by intros [= <- <-].
  - cbn [walkWith]. unfold bind at 1.
    destruct (indexWalker w root idx ignore e st) as [[idx1| | |] st1]
      eqn:Hstep; try done.
    intros Hrest Hall Hidx. eapply IH; [exact Hrest| |].
    { intros e' He'. apply Hall. by constructor. }
    apply indexWalker_ok in Hstep as [->|(h0 & item0 & Hdesc & ->)];
      [done|].
    intros h item. rewrite lookup_insert. case_decide as Hh.
    + intros [= <-]. subst h0. exists e. split; [|done].
      apply Hall. constructor.
    + apply Hidx.
Qed.

(** X6.  Every entry of the index that [createIndex] returns stands for a
    file the walk visited: not a directory, not matched by the ignore
    patterns, read successfully; its key is the SHA-256 of the bytes read,
    its name the path relative to the resolved root, its size the number
    of bytes, its mode and time those of the file. *)
Theorem createIndex_sound w dir st index st' root ignore :
  createIndex w dir st = (Ok index, st') →
  EvalSymlinks w dir = inl root →
  (readDockerIgnore w dir st).1 = Ok ignore →
  ∀ h item, index !! h = Some item →
    ∃ e, e ∈ Walk w root ∧ describes w root ignore h item e.
Proof.
  intros Hrun Hroot Hign.
  destruct (createIndex_walk _ _ _ _ _ _ _ Hrun Hroot Hign) as [st1 Hwalk].
  eapply walkWith_sound; [exact Hwalk|done|].
  intros h item Hlook. by rewrite lookup_empty in Hlook.
Qed.

Lemma walkWith_app w root ignore pre post idx st :
  walkWith w root ignore (pre ++ post) idx st
  = bind (walkWith w root ignore pre idx) (walkWith w root ignore post) st.
Proof.
  revert idx st. induction pre as [|e pre IH]; intros idx st; [done|].
  cbn [app walkWith]. unfold bind.
  destruct (indexWalker w root idx ignore e st) as [[idx1| | |] st1];
    [apply IH|done..].
Qed.

(** X7.  [createIndex] stops at the first file it cannot read: when the
    walk has gone through the visits [pre] and the next visit is a file
    that is to be indexed but whose read fails, the call returns that read
    error right after the attempt, and nothing of the rest of the walk is
    visited. *)
Theorem createIndex_stops_at_first_error
    w dir st st1 root ignore pre e post idx1 st2 err :
  warnUnignoredEnv w dir st = (Ok tt, st1) →
  (readDockerIgnore w dir st1).1 = Ok ignore →
  EvalSymlinks w dir = inl root →
  Walk w root = pre ++ e :: post →
  walkWith w root ignore pre ∅ st1 = (Ok idx1, st2) →
  eligible w root ignore e →
  ReadFile w (we_path e) = inr err →
  createIndex w dir st
  = (Err err, mkState (trace st2 ++ [EvReadFile (we_path e)]) (clock st2)).
Proof.
  intros Hwarn Hign Hroot Hwalk Hpre (info & rel & Hinfo & Hdir & Hrel & Hm)
    Hread.
  destruct (readDockerIgnore_pure w dir) as [o Ho].
  rewrite Ho in Hign. cbn in Hign. subst o.
  unfold createIndex. unfold bind at 1. rewrite Hwarn.
  unfold bind at 1. rewrite Ho.
  unfold bind at 1. rewrite Hroot. cbn [lift]. unfold ret at 1.
  rewrite Hwalk, walkWith_app. unfold bind at 1. rewrite Hpre.
  cbn [walkWith]. unfold bind at 1.
  unfold indexWalker, emit. go_unfold.
  rewrite Hrel. cbn. rewrite Hinfo, Hdir, Hm. cbn. by rewrite Hread.
Qed.

(** X8.  Whatever its outcome, [createIndex] opens only files it is about
    to index: every [ReadFile] it issues is for a visit of the walk that
    is not a directory and whose relative path is not matched by the
    ignore patterns. *)
Theorem createIndex_reads_only_eligible w dir st :
  ∃ evs,
    trace (createIndex w dir st).2 = trace st ++ evs
    ∧ ∀ path, EvReadFile path ∈ evs →
        ∃ root ignore e,
          EvalSymlinks w dir = inl root
          ∧ (readDockerIgnore w dir st).1 = Ok ignore
          ∧ e ∈ Walk w root ∧ we_path e = path
          ∧ eligible w root ignore e.
Proof.
  set (Q := λ ev, ∀ path, ev = EvReadFile path →
              ∃ root ignore e,
                EvalSymlinks w dir = inl root
                ∧ (readDockerIgnore w dir st).1 = Ok ignore
                ∧ e ∈ Walk w root ∧ we_path e = path
                ∧ eligible w root ignore e).
  assert (Hother : ∀ ev, kind ev ≠ KReadFile → Q ev).
  { intros ev Hk path ->. by destruct Hk. }
  assert (Hquiet : ∀ {A} (m : M A) ks,
            KReadFile ∉ ks → emits_only (only ks) m → emits_only Q m).
  { intros A m ks Hks. apply emits_only_mono. intros ev Hev.
    apply Hother. intros Heq. apply Hks. by rewrite <- Heq. }
  assert (Hrun : emits_only Q (createIndex w dir)).
  { unfold createIndex.
    apply emits_only_bind; [|intros _].
    { apply (Hquiet _ _ [KPrint]); [|apply warnUnignoredEnv_emits].
      intros Hin. apply list_elem_of_singleton in Hin. discriminate Hin. }
    apply emits_only_bind_ok.
    { apply (Hquiet _ _ []); [|apply readDockerIgnore_emits].
      apply not_elem_of_nil. }
    intros ignore s s' Hign.
    assert (Hign' : (readDockerIgnore w dir st).1 = Ok ignore).
    { destruct (readDockerIgnore_pure w dir) as [o Ho].
      rewrite Ho in Hign. rewrite Ho. cbn. by injection Hign as ->. }
    apply emits_only_bind_ok; [apply emits_only_lift|].
    intros root s1 s1' Hroot%lift_ok.
    assert (Hwalk : ∀ entries idx,
              (∀ e, e ∈ entries → e ∈ Walk w root) →
              emits_only Q (walkWith w root ignore entries idx)).
    { induction entries as [|e entries IH]; intros idx Hall;
        cbn [walkWith]; [apply emits_only_ret|].
      apply emits_only_bind;
        [|intros idx1; apply IH; intros e' He'; apply Hall; by constructor].
      unfold indexWalker.
      apply emits_only_bind_ok; [apply emits_only_lift|].
      intros rel' s3 s3' Hrel%lift_ok.
      destruct (we_info e) as [info|] eqn:Hinfo; [|apply emits_only_panic].
      destruct (info_IsDir info) eqn:Hdir; [apply emits_only_ret|].
      apply emits_only_bind_ok; [apply emits_only_lift|].
      intros [] s2 s2' Hm%lift_ok; [apply emits_only_ret|].
      apply emits_only_bind.
      { apply emits_only_emit. intros path [= <-].
        exists root, ignore, e. repeat split; try done.
        - apply Hall. constructor.
        - exists info, rel'. repeat split; try done. } 
      intros _.
      apply emits_only_bind; [apply emits_only_lift|intros data].
      apply emits_only_ret. }
    by apply Hwalk. }
  destruct (Hrun st) as (evs & Htr & Hevs).
  exists evs. split; [done|]. intros path Hin.
  rewrite Forall_forall in Hevs. by apply (Hevs _ Hin path).
Qed.

End ConvoxIndexMore.

Module ConvoxIndexMoreWitness.
Import Convox ConvoxSpec ConvoxTerms ConvoxIndexMore.

Lemma createIndex_sound_witness :
  ∃ e, e ∈ Walk Scenario.twins "."
       ∧ describes Scenario.twins "." [] "sha-3"
           (mkIndexItem "b.txt" 420 20 3) e.
Proof.
  apply (createIndex_sound Scenario.twins "." Scenario.st0
           {[ "sha-3" := mkIndexItem "b.txt" 420 20 3 ]}
           (mkState [EvReadFile "a.txt"; EvReadFile "b.txt"] 0) "." []).
  - vm_compute. reflexivity.
  - reflexivity.
  - reflexivity.
  - vm_compute. reflexivity.
Defined.

Lemma createIndex_stops_at_first_error_witness :
  createIndex Variation.broken_tree "." Scenario.st0
  = (Err "no such file",
     mkState [EvReadFile "a.txt"; EvReadFile "c.txt"] 0).
Proof.
  apply (createIndex_stops_at_first_error Variation.broken_tree "."
           Scenario.st0 Scenario.st0 "." []
           [mkWalkEntry "." (Some (mkFileInfo true 493 0));
            mkWalkEntry "a.txt" (Some (mkFileInfo false 420 10))]
           (mkWalkEntry "c.txt" (Some (mkFileInfo false 420 15)))
           [mkWalkEntry "b.txt" (Some (mkFileInfo false 420 20))]
           {[ "sha-3" := mkIndexItem "a.txt" 420 10 3 ]}
           (mkState [EvReadFile "a.txt"] 0) "no such file").
  - reflexivity.
  - reflexivity.
  - reflexivity.
  - reflexivity.
  - vm_compute. reflexivity.
  - do 2 eexists. repeat split; reflexivity.
  - reflexivity.
Defined.

Lemma createIndex_reads_only_eligible_witness :
  ∃ evs,
    trace (createIndex Variation.broken_tree "." Scenario.st0).2 = [] ++ evs
    ∧ ∀ path, EvReadFile path ∈ evs →
        ∃ root ignore e,
          EvalSymlinks Variation.broken_tree "." = inl root
          ∧ (readDockerIgnore Variation.broken_tree "." Scenario.st0).1
            = Ok ignore
          ∧ e ∈ Walk Variation.broken_tree root ∧ we_path e = path
          ∧ eligible Variation.broken_tree root ignore e.
Proof.
  exact (createIndex_reads_only_eligible Variation.broken_tree "."
           Scenario.st0).
Defined.

End ConvoxIndexMoreWitness.

Module ConvoxFiles.
Import Convox ConvoxSpec ConvoxTerms ConvoxKinds ConvoxFrame ConvoxEmits
  ConvoxIndex.

(** X9.  [warnUnignoredEnv] looks at the ignore file only when a ".env"
    file exists.  Without one it does nothing and cannot fail.  With one,
    and the patterns of the directory read as [lines], it prints its
    warning unless a ".dockerignore" exists and ".env" is literally one of
    the patterns. *)
Theorem warnUnignoredEnv_warns w dir st :
  (Stat w ".env" = false → warnUnignoredEnv w dir st = (Ok tt, st))
  ∧ (∀ lines,
       Stat w ".env" = true →
       (readDockerIgnore w dir st).1 = Ok lines →
       warnUnignoredEnv w dir st
       = (Ok tt,
          if Stat w ".dockerignore" && bool_decide (".env" ∈ lines)
          then st else warned st)).
Proof.
  split.
  - intros Henv. unfold warnUnignoredEnv. rewrite Henv.
    rewrite !andb_false_r. reflexivity.
  - intros lines Henv Hlines.
    destruct (readDockerIgnore_pure w dir) as [o Ho].
    rewrite Ho in Hlines. cbn in Hlines. subst o.
    unfold warnUnignoredEnv. rewrite Henv.
    destruct (Stat w ".dockerignore"); cbn [negb andb]; [|done].
    unfold bind at 1. unfold bind at 1. rewrite Ho.
    case_decide as Hlen.
    + destruct lines; [|done].
      rewrite bool_decide_eq_false_2 by apply not_elem_of_nil. done.
    + unfold ret at 1. by case_bool_decide.
Qed.

Lemma warnUnignoredEnv_warns_witness :
  warnUnignoredEnv Variation.leaky "." Scenario.st0
  = (Ok tt, warned Scenario.st0).
Proof.
  destruct (warnUnignoredEnv_warns Variation.leaky "." Scenario.st0)
    as [_ Hwarn].
  exact (Hwarn ["*.env"] eq_refl eq_refl).
Defined.

End ConvoxFiles.

Module ConvoxTarballMore.
Import Convox ConvoxSpec ConvoxTerms.

Section Members.
Variable w : World.
Variable excludes : list string.

Lemma tarVisit_well_packed includes include acc f :
  include ∈ includes →
  well_packed w excludes includes acc →
  well_packed w excludes includes (tarVisit w excludes include acc f).
Proof.
  intros Hinc [Hnd Hmem]. unfold tarVisit.
  destruct (negb (under include (te_Name f))); [done|].
  case_bool_decide as Hself; cbn [negb andb].
  - case_bool_decide as Hseen; [done|]. split.
    + rewrite fmap_app. apply NoDup_app. split; [done|]. split.
      * intros n Hn Hn'. apply list_elem_of_singleton in Hn'. by subst n.
      * apply NoDup_singleton.
    + intros g Hg. apply elem_of_app in Hg as [Hg|Hg]; [by apply Hmem|].
      apply list_elem_of_singleton in Hg. subst g. left. by rewrite <- Hself.
  - destruct (Matches w (te_Name f) excludes) as [[]|] eqn:Hmatch; [done| |done].
    case_bool_decide as Hseen; [done|]. split.
    + rewrite fmap_app. apply NoDup_app. split; [done|]. split.
      * intros n Hn Hn'. apply list_elem_of_singleton in Hn'. by subst n.
      * apply NoDup_singleton.
    + intros g Hg. apply elem_of_app in Hg as [Hg|Hg]; [by apply Hmem|].
      apply list_elem_of_singleton in Hg. subst g. by right.
Qed.

Lemma walk_well_packed includes include files acc :
  include ∈ includes →
  well_packed w excludes includes acc →
  well_packed w excludes includes (foldl (tarVisit w excludes include) acc files).
Proof.
  intros Hinc. revert acc.
  induction files as [|f files IH]; intros acc Hacc; [done|].
  cbn. apply IH. by apply tarVisit_well_packed.
Qed.

Lemma tarAll_well_packed includes files todo acc :
  (∀ i, i ∈ todo → i ∈ includes) →
  well_packed w excludes includes acc →
  well_packed w excludes includes (tarAll w excludes files todo acc).
Proof.
  revert acc. induction todo as [|i todo IH]; intros acc Hsub Hacc; [done|].
  cbn. apply IH; [intros j Hj; apply Hsub; by constructor|].
  apply walk_well_packed; [apply Hsub; constructor|done].
Qed.
End Members.

Lemma createTarball_ok w base st out st' :
  createTarball w base st = (Ok out, st') →
  ∃ sym excludes,
    EvalSymlinks w base = inl sym
    ∧ ignore_patterns w sym excludes
    ∧ out = tarAll w excludes (Tree w sym)
              (opt_IncludeFiles (tar_options w excludes)) [].
Proof.
  unfold createTarball, chdir, TarWithOptions, emit. go_unfold.
  destruct (Getwd w) as [cwd|]; cbn; [|done].
  destruct (EvalSymlinks w base) as [sym|]; cbn; [|done].
  destruct (Chdir w sym); cbn; [done|].
  unfold ignore_patterns, tar_options.
  destruct (Open w (Join w sym ".dockerignore")) eqn:Hopen; cbn; [|done|].
  - destruct (TarFailure w sym); cbn; [done|].
    destruct (Chdir w cwd); cbn; [done|].
    intros [= <- <-]. exists sym, []. split; [done|]. split; [by left|].
    by destruct (matchesOrFalse w ".dockerignore" []
                 || matchesOrFalse w "Dockerfile" []).
  - destruct (dockerignore_ReadAll w _) as [excludes|] eqn:Hread; cbn;
      [|done].
    destruct (TarFailure w sym); cbn; [done|].
    destruct (Chdir w cwd); cbn; [done|].
    intros [= <- <-]. exists sym, excludes. split; [done|].
    split; [by right|].
    by destruct (matchesOrFalse w ".dockerignore" excludes
                 || matchesOrFalse w "Dockerfile" excludes).
Qed.

Lemma tarAll_origin w excludes files includes acc x :
  x ∈ tarAll w excludes files includes acc → x ∈ acc ∨ x ∈ files.
Proof. apply ConvoxTarball.tarAll_from. Qed.

(** X10.  In an archive that [createTarball] returns no path occurs
    twice and every member is a file of the resolved directory.  A member
    is a file that the ignore patterns do not match, unless it is
    ".dockerignore" or "Dockerfile" and the patterns match one of these
    two.  (No regular file of the directory is called ".".) *)
Theorem createTarball_members w base st out st' sym :
  createTarball w base st = (Ok out, st') →
  EvalSymlinks w base = inl sym →
  (∀ f, f ∈ Tree w sym → te_Name f ≠ ".") →
  ∃ excludes,
    ignore_patterns w sym excludes
    ∧ NoDup (te_Name <$> out)
    ∧ ∀ f, f ∈ out →
        f ∈ Tree w sym
        ∧ (Matches w (te_Name f) excludes = inl false
           ∨ (te_Name f = ".dockerignore" ∨ te_Name f = "Dockerfile")
             ∧ (Matches w ".dockerignore" excludes = inl true
                ∨ Matches w "Dockerfile" excludes = inl true)).
Proof.
  intros (sym' & excludes & Hsym' & Hpat & ->)%createTarball_ok Hsym Hdot.
  rewrite Hsym in Hsym'. injection Hsym' as <-.
  exists excludes. split; [done|].
  set (includes := opt_IncludeFiles (tar_options w excludes)).
  assert (Hwp : well_packed w excludes includes
                  (tarAll w excludes (Tree w sym) includes [])).
  { apply tarAll_well_packed; [done|]. split; [constructor|].
    intros f Hf. by apply elem_of_nil in Hf. }
  destruct Hwp as [Hnd Hmem]. split; [done|].
  intros f Hf.
  assert (Htree : f ∈ Tree w sym).
  { apply tarAll_origin in Hf as [Hf|Hf]; [by apply elem_of_nil in Hf|done]. }
  split; [done|].
  destruct (Hmem f Hf) as [Hinc|Hfree]; [|by left]. right.
  subst includes. unfold tar_options in Hinc. cbn [opt_IncludeFiles] in Hinc.
  destruct (matchesOrFalse w ".dockerignore" excludes
            || matchesOrFalse w "Dockerfile" excludes) eqn:Hkeep.
  - split.
    + apply elem_of_cons in Hinc as [Hinc|Hinc];
        [by destruct (Hdot f Htree)|].
      apply elem_of_cons in Hinc as [Hinc|Hinc]; [by left|].
      apply list_elem_of_singleton in Hinc. by right.
    + apply orb_true_iff in Hkeep. unfold matchesOrFalse in Hkeep.
      destruct Hkeep as [Hk|Hk]; [left|right];
        by destruct (Matches w _ excludes) as [[]|].
  - apply list_elem_of_singleton in Hinc. by destruct (Hdot f Htree).
Qed.

Lemma createTarball_members_witness :
  ∃ excludes,
    ignore_patterns Scenario.self_ignoring "." excludes
    ∧ NoDup (te_Name <$> [Scenario.dockerfile_file; Scenario.main_file;
                          Scenario.dockerignore_file])
    ∧ ∀ f, f ∈ [Scenario.dockerfile_file; Scenario.main_file;
                Scenario.dockerignore_file] →
        f ∈ Tree Scenario.self_ignoring "."
        ∧ (Matches Scenario.self_ignoring (te_Name f) excludes = inl false
           ∨ (te_Name f = ".dockerignore" ∨ te_Name f = "Dockerfile")
             ∧ (Matches Scenario.self_ignoring ".dockerignore" excludes
                = inl true
                ∨ Matches Scenario.self_ignoring "Dockerfile" excludes
                  = inl true)).
Proof.
  apply (createTarball_members Scenario.self_ignoring "." Scenario.st0
           [Scenario.dockerfile_file; Scenario.main_file;
            Scenario.dockerignore_file]
           (mkState [EvChdir ".";
                     EvTarWithOptions "."
                       (mkTarOptions [".dockerignore"]
                          ["."; ".dockerignore"; "Dockerfile"]);
                     EvChdir "/home"] 0) ".").
  - vm_compute. reflexivity.
  - reflexivity.
  - intros f Hf. cbn in Hf.
    repeat (apply elem_of_cons in Hf as [Hf|Hf]; [subst f; discriminate|]).
    by apply elem_of_nil in Hf.
Defined.

(** X11.  [createTarball] changes into the resolved directory and changes
    back only after the tar call succeeded: when [TarWithOptions] fails,
    its error is returned and the process is left in the resolved
    directory; when it succeeds, the last thing done is the [Chdir] back
    to the directory the process started in, whose error, if any, is the
    result. *)
Theorem createTarball_working_directory w base st cwd sym excludes :
  Getwd w = inl cwd →
  EvalSymlinks w base = inl sym →
  Chdir w sym = None →
  ignore_patterns w sym excludes →
  let entered :=
    trace st ++ [EvChdir sym; EvTarWithOptions sym (tar_options w excludes)] in
  (∀ e, TarFailure w sym = Some e →
        createTarball w base st = (Err e, mkState entered (clock st)))
  ∧ (TarFailure w sym = None →
        ∃ out,
          createTarball w base st
          = (match Chdir w cwd with None => Ok out | Some e => Err e end,
             mkState (entered ++ [EvChdir cwd]) (clock st))).
Proof.
  intros Hcwd Hsym Hcd Hpat entered. subst entered.
  split.
  - intros e Htar.
    unfold createTarball, chdir, TarWithOptions, tar_options, emit.
    go_unfold. rewrite Hcwd, Hsym. cbn. rewrite Hcd. cbn.
    destruct Hpat as [[Hopen ->]|[Hopen Hread]]; rewrite Hopen;
      rewrite ?Hread; cbn; rewrite Htar; cbn;
      destruct (matchesOrFalse w ".dockerignore" _
                || matchesOrFalse w "Dockerfile" _);
      cbn; by rewrite <- !app_assoc.
  - intros Htar.
    exists (tarAll w excludes (Tree w sym)
              (opt_IncludeFiles (tar_options w excludes)) []).
    unfold createTarball, chdir, TarWithOptions, tar_options, emit.
    go_unfold. rewrite Hcwd, Hsym. cbn. rewrite Hcd. cbn.
    destruct Hpat as [[Hopen ->]|[Hopen Hread]]; rewrite Hopen;
      rewrite ?Hread; cbn; rewrite Htar; cbn;
      destruct (Chdir w cwd); cbn;
      destruct (matchesOrFalse w ".dockerignore" _
                || matchesOrFalse w "Dockerfile" _);
      cbn; by rewrite <- !app_assoc.
Qed.

Lemma createTarball_working_directory_witness :
  createTarball Variation.tar_broken "." Scenario.st0
  = (Err "tar: write error",
     mkState [EvChdir ".";
              EvTarWithOptions "."
                (mkTarOptions [".dockerignore"]
                   ["."; ".dockerignore"; "Dockerfile"])] 0).
Proof.
  assert (Hpat : ignore_patterns Variation.tar_broken "." [".dockerignore"]).
  { right. split; reflexivity. }
  destruct (createTarball_working_directory Variation.tar_broken "."
              Scenario.st0 "/home" "." [".dockerignore"]
              eq_refl eq_refl eq_refl Hpat) as [Hfail _].
  exact (Hfail "tar: write error" eq_refl).
Defined.

End ConvoxTarballMore.

(** ** Further properties of the provider's release file *)

Module ProviderMore.
Import Provider ProviderSpec ProviderTerms ProviderFacts.

Lemma parseReleases_ok w rows :
  ∀ acc st rels st',
  parseReleases w rows acc st = (Ok rels, st') →
  st' = st ∧ ∃ new, rels = acc ++ new ∧ Forall2 (read_as w) rows new.
Proof.
  induction rows as [|r rows IH]; intros acc st rels st'.
  - intros [= <- <-]. split; [done|]. exists []. by rewrite app_nil_r.
  - cbn [parseReleases].
    destruct (r !! "created") as [c|] eqn:Hc; [|done].
    unfold bind at 1.
    destruct (time_Parse w (SortableTime w) (attr_Value c)) as [t|] eqn:Ht;
      cbn; [|done].
    intros Hrest. apply IH in Hrest as (-> & new & -> & Hnew).
    split; [done|]. eexists (_ :: new). split; [by rewrite <- app_assoc|].
    constructor; [|done]. repeat split; try done. by exists c.
Qed.

Lemma parseReleases_all w rows new :
  Forall2 (read_as w) rows new →
  ∀ acc st, parseReleases w rows acc st = (Ok (acc ++ new), st).
Proof.
  induction 1 as [|r rel rows new (Hid & Hami & c & Hc & Ht) _ IH];
    intros acc st.
  - cbn. by rewrite app_nil_r.
  - cbn [parseReleases]. rewrite Hc. unfold bind at 1. rewrite Ht. cbn.
    rewrite IH, <- app_assoc. cbn. do 3 f_equal.
    destruct rel. cbn in *. by subst.
Qed.

(** X12.  [ReleaseList] returns all rows or none: given the rows of the
    query, it returns the list [rels] exactly when [rels] has one release
    per row, in the order of the rows, each with the row's id and ami and
    the parsed creation time.  So it returns nothing when a single row has
    no "created" attribute or one that does not parse. *)
Theorem ReleaseList_all_or_nothing w cluster app rows rels st :
  QueryTable w (releasesTable cluster app) app = inl rows →
  ReleaseList w cluster app st
  = (Ok rels, st ++ [EvQueryTable (releasesTable cluster app) app])
  ↔ Forall2 (read_as w) rows rels.
Proof.
  intros Hq. unfold ReleaseList, emit. go_unfold. cbn. rewrite Hq. cbn.
  split.
  - intros (_ & new & -> & Hnew)%parseReleases_ok. done.
  - intros Hall. by rewrite (parseReleases_all w rows rels Hall).
Qed.

Lemma ReleaseList_all_or_nothing_witness :
  ReleaseList CloudVariation.stamped "rack" "app" []
  = (Ok [mkRelease "RAAAAAAAAA" "ami-x" 1456530133],
     [] ++ [EvQueryTable (releasesTable "rack" "app") "app"])
  ↔ Forall2 (read_as CloudVariation.stamped)
      [CloudVariation.stamped_release]
      [mkRelease "RAAAAAAAAA" "ami-x" 1456530133].
Proof.
  apply (ReleaseList_all_or_nothing CloudVariation.stamped "rack" "app"
           [CloudVariation.stamped_release]
           [mkRelease "RAAAAAAAAA" "ami-x" 1456530133] []).
  reflexivity.
Defined.

(** X13.  A successful promotion sends the template that
    [releaseFormation] rendered: when [releaseFormation] returns a
    template and [AppShow] and [DescribeStacks] answer, the one
    [UpdateStack] request is for the stack "<cluster>-<app>" with that
    template as body, and its result is the result of [ReleasePromote]. *)
Theorem ReleasePromote_sends_rendered_template
    w cluster app release st template st1 a s0 rest :
  releaseFormation w cluster app release st = (Ok template, st1) →
  AppShow w cluster app = (Some a, None) →
  DescribeStacks w (cluster +:+ "-" +:+ app) = inl (s0 :: rest) →
  let params :=
    mkUpdateStackParams (cluster +:+ "-" +:+ app) template
      (stack_Parameters s0 ++ [mkParameter "Release" release]) in
  ReleasePromote w cluster app release st
  = (match UpdateStack w params with None => Ok tt | Some e => Err e end,
     st1 ++ [EvAppShow cluster app;
             EvDescribeStacks (cluster +:+ "-" +:+ app);
             EvUpdateStack params]).
Proof.
  intros Hrf Happ Hds params.
  rewrite ReleasePromote_after, Hrf.
  by rewrite (promote_after_issues _ _ _ _ _ _ _ _ Happ Hds).
Qed.

Lemma ReleasePromote_sends_rendered_template_witness :
  ReleasePromote CloudVariation.healthy "rack" "app" "RAAAAAAAAA" []
  = (Ok tt,
     [EvGetItem "rack-app-releases" "RAAAAAAAAA"; EvDebug "manifest";
      EvDebug "err"; EvDebug "template"]
     ++ [EvAppShow "rack" "app"; EvDescribeStacks "rack-app";
         EvUpdateStack
           (mkUpdateStackParams "rack-app" "template of app"
              [mkParameter "InstanceType" "t2.small";
               mkParameter "Release" "RAAAAAAAAA"])]).
Proof.
  apply (ReleasePromote_sends_rendered_template CloudVariation.healthy
           "rack" "app" "RAAAAAAAAA" [] "template of app"
           [EvGetItem "rack-app-releases" "RAAAAAAAAA"; EvDebug "manifest";
            EvDebug "err"; EvDebug "template"]
           "app" (mkStack Scenario.live_parameters) []).
  - vm_compute. reflexivity.
  - reflexivity.
  - reflexivity.
Defined.

Ltac formation_events :=
  repeat (constructor; [solve [left; eauto | right; eauto]|]); constructor.

(** X14.  [ReleasePromote] touches no stack when it cannot go on.  It
    writes [a.Repository] before it looks at the error of [AppShow]: when
    [AppShow] returns a nil app (as it does with an error, the usual way)
    the call panics on that write; when it returns an error next to a
    non-nil app, that error is the result; in both cases neither
    [DescribeStacks] nor [UpdateStack] is called.  When [DescribeStacks]
    returns an error, that error is the result and [UpdateStack] is not
    called; and when [DescribeStacks] returns no stack at all, the call
    panics on [Stacks[0]] instead of updating.  ([releaseFormation] is
    taken not to panic.) *)
Theorem ReleasePromote_stops_before_update w cluster app release st :
  (releaseFormation w cluster app release st).1 ≠ Panic →
  ∃ pre,
    Forall (λ ev, ¬ stack_call ev) pre
    ∧ (∀ err, AppShow w cluster app = (None, err) →
         ReleasePromote w cluster app release st
         = (Panic, st ++ pre ++ [EvAppShow cluster app]))
    ∧ (∀ a err, AppShow w cluster app = (Some a, Some err) →
         ReleasePromote w cluster app release st
         = (Err err, st ++ pre ++ [EvAppShow cluster app]))
    ∧ (∀ a err, AppShow w cluster app = (Some a, None) →
         DescribeStacks w (cluster +:+ "-" +:+ app) = inr err →
         ReleasePromote w cluster app release st
         = (Err err,
            st ++ pre ++ [EvAppShow cluster app;
                          EvDescribeStacks (cluster +:+ "-" +:+ app)]))
    ∧ (∀ a, AppShow w cluster app = (Some a, None) →
         DescribeStacks w (cluster +:+ "-" +:+ app) = inl [] →
         ReleasePromote w cluster app release st
         = (Panic,
            st ++ pre ++ [EvAppShow cluster app;
                          EvDescribeStacks (cluster +:+ "-" +:+ app)])).
Proof.
  intros Hpanic.
  assert (Hframe : ∃ pre,
    (releaseFormation w cluster app release st).2 = st ++ pre
    ∧ Forall (λ ev, ¬ stack_call ev) pre).
  { unfold releaseFormation, emit. go_unfold. cbn.
    assert (Hq : ∀ evs,
      Forall (λ ev, (∃ t k, ev = EvGetItem t k) ∨ (∃ l, ev = EvDebug l)) evs →
      Forall (λ ev, ¬ stack_call ev) evs).
    { intros evs Hevs. eapply Forall_impl; [exact Hevs|].
      intros ev [(t & k & ->)|(l & ->)] [[? ?]|[? ?]]; discriminate. }
    destruct (GetItem w _ release) as [drelease|e]; cbn;
      [|eexists; split; [reflexivity|apply Hq; formation_events]].
    case_decide;
      [eexists; split; [reflexivity|apply Hq; formation_events]|].
    destruct (appParams w cluster app) as [params|e]; cbn;
      [|eexists; split; [reflexivity|apply Hq; formation_events]].
    destruct (drelease !! "manifest") as [m|]; cbn;
      [|eexists; split; [reflexivity|apply Hq; formation_events]].
    destruct (buildTemplate w "app" params); cbn; flatten_trace;
      (eexists; split; [reflexivity|apply Hq; formation_events]). }
  destruct Hframe as (pre & Hst & Hpre).
  destruct (releaseFormation_frame w cluster app release st)
    as (_ & _ & _ & Hloop).
  rewrite ReleasePromote_after.
  destruct (releaseFormation w cluster app release st) as [[f|e| |] st1];
    cbn [fst snd] in *; subst st1; [| |done|done].
  - exists pre. split; [done|]. unfold promote_after.
    split; [|split; [|split]].
    + intros err ->. cbn. by rewrite <- app_assoc.
    + intros a err ->. cbn. by rewrite <- app_assoc.
    + intros a err -> ->. cbn. by rewrite <- app_assoc.
    + intros a -> ->. cbn. by rewrite <- app_assoc.
  - exists (pre ++ [EvDebug "err"]). split.
    { apply Forall_app. split; [done|]. constructor; [|constructor].
      intros [[? ?]|[? ?]]; discriminate. }
    unfold promote_after. split; [|split; [|split]].
    + intros err ->. cbn. by rewrite <- !app_assoc.
    + intros a err ->. cbn. by rewrite <- !app_assoc.
    + intros a err -> ->. cbn. by rewrite <- !app_assoc.
    + intros a -> ->. cbn. by rewrite <- !app_assoc.
Qed.

Lemma ReleasePromote_stops_before_update_witness :
  (ReleasePromote CloudVariation.nil_app "rack" "app" "RAAAAAAAAA" []).1
  = Panic
  ∧ (ReleasePromote CloudVariation.no_app "rack" "app" "RAAAAAAAAA" []).1
    = Err "no such app".
Proof.
  split.
  - destruct (ReleasePromote_stops_before_update CloudVariation.nil_app
                "rack" "app" "RAAAAAAAAA" [])
      as (pre & _ & Hnil & _); [vm_compute; discriminate|].
    by rewrite (Hnil (Some "no such app") eq_refl).
  - destruct (ReleasePromote_stops_before_update CloudVariation.no_app
                "rack" "app" "RAAAAAAAAA" [])
      as (pre & _ & _ & Hshow & _); [vm_compute; discriminate|].
    by rewrite (Hshow "app" "no such app" eq_refl).
Defined.

End ProviderMore.

Module ProviderFormation.
Import Provider ProviderSpec ProviderTerms ProviderFacts.



End ProviderFormation.

(** ** Properties of the commands *)

Module RackCmdFacts.
Import RackCmd CmdTerms.

Lemma cut_assign k v : ¬ has_eq k → cut (k +:+ "=" +:+ v) = Some (k, v).
Proof.
  induction k as [|a k IH]; intros Hk; [done|].
  simpl. case_decide as Ha.
  - destruct Hk. exists "", k. by subst a.
  - rewrite IH; [done|]. intros (k1 & k2 & ->). apply Hk.
    by exists (String a k1), k2.
Qed.

Lemma cut_Some s k v : cut s = Some (k, v) → s = k +:+ "=" +:+ v.
Proof.
  revert k. induction s as [|a s IH]; intros k; [done|].
  simpl. case_decide as Ha.
  - intros [= <- <-]. by subst a.
  - destruct (cut s) as [[k' v']|]; [|done].
    intros [= <- <-].
    change (String a s = String a (k' +:+ "=" +:+ v')).
    f_equal. by apply IH.
Qed.

Lemma cut_None s : ¬ has_eq s → cut s = None.
Proof.
  intros Hs. destruct (cut s) as [[k v]|] eqn:Hcut; [|done].
  destruct Hs. exists k, v. by apply cut_Some.
Qed.

Lemma cut_has_eq s : has_eq s → ∃ k v, cut s = Some (k, v).
Proof.
  intros (k & v & ->). revert v. induction k as [|a k IH]; intros v.
  - by exists "", v.
  - simpl. case_decide; [by eexists _, _|].
    destruct (IH v) as (k' & v' & ->). by eexists _, _.
Qed.

Lemma parseArgs_assign kvs :
  ∀ params st,
  Forall (λ kv, ¬ has_eq kv.1) kvs →
  parseArgs (assign <$> kvs) params st
  = (Ok (foldl (λ m kv, <[kv.1 := kv.2]> m) params kvs), st).
Proof.
  induction kvs as [|[k v] kvs IH]; intros params st Hall; [done|].
  apply Forall_cons in Hall as [Hk Hall].
  cbn [fmap list_fmap parseArgs]. unfold SplitN2, assign at 1. cbn [fst snd].
  rewrite cut_assign by done. by rewrite IH.
Qed.

Lemma parseArgs_reject pre bad post :
  ∀ params st,
  Forall has_eq pre → ¬ has_eq bad →
  parseArgs (pre ++ bad :: post) params st
  = (Err ("invalid argument: " +:+ bad), st).
Proof.
  induction pre as [|a pre IH]; intros params st Hpre Hbad.
  - cbn [app parseArgs]. unfold SplitN2. by rewrite cut_None.
  - apply Forall_cons in Hpre as [Ha Hpre].
    cbn [app parseArgs]. unfold SplitN2.
    destruct (cut_has_eq a Ha) as (k & v & ->). by apply IH.
Qed.

Lemma assigned_last (m : gmap string string) pre k v post :
  k ∉ post.*1 →
  foldl (λ m kv, <[kv.1 := kv.2]> m) m (pre ++ (k, v) :: post) !! k = Some v.
Proof.
  intros Hpost. rewrite foldl_app. cbn [foldl fst snd].
  generalize (foldl (λ m kv, <[kv.1 := kv.2]> m) m pre). intros m'.
  assert (Hv : <[k := v]> m' !! k = Some v) by apply lookup_insert_eq.
  revert Hv. generalize (<[k := v]> m'). clear m'.
  induction post as [|[k' v'] post IH]; intros m' Hv; [done|].
  cbn [foldl fst snd]. apply IH.
  - intros Hin. apply Hpost. cbn. by right.
  - rewrite lookup_insert_ne; [done|]. intros ->. apply Hpost. cbn. by left.
Qed.

(** X17.  [convox rack params set] with arguments NAME=VALUE (no "=" in
    a name; the value may contain more) asks the rack for its name and
    then issues one [SetParameters] with the map of the assignments, whose
    result is the result of the command.  A name assigned more than once
    keeps the value of its last assignment. *)
Theorem cmdRackParamsSet_sets w st system kvs :
  GetSystem w = inl system →
  Args w = assign <$> kvs →
  Forall (λ kv, ¬ has_eq kv.1) kvs →
  cmdRackParamsSet w st
  = (match SetParameters w (system_Name system) (assigned kvs) with
     | None => Ok tt
     | Some e => Err e
     end,
     st ++ [EvGetSystem; EvPrint "Updating parameters... ";
            EvSetParameters (system_Name system) (assigned kvs)]
        ++ match SetParameters w (system_Name system) (assigned kvs) with
           | None => [EvPrint ("OK" +:+ Convox.nl)]
           | Some _ => []
           end)
  ∧ ∀ pre k v post,
      kvs = pre ++ (k, v) :: post → k ∉ post.*1 →
      assigned kvs !! k = Some v.
Proof.
  intros Hsys Hargs Hall. split.
  - unfold cmdRackParamsSet. unfold bind at 1. unfold emit at 1, modify.
    unfold bind at 1. rewrite Hsys. cbn [lift]. unfold ret at 1.
    unfold bind at 1. rewrite Hargs, parseArgs_assign by done.
    fold (assigned kvs). unfold emit. go_unfold. cbn.
    destruct (SetParameters w _ _); cbn; by rewrite <- !app_assoc.
  - intros pre k v post -> Hpost. by apply assigned_last.
Qed.

Lemma cmdRackParamsSet_sets_witness :
  cmdRackParamsSet
    (CmdScenario.params_set ["Ami=ami-1"; "Tag=a=b"; "Ami=ami-2"]) []
  = (Ok tt,
     [] ++ [EvGetSystem; EvPrint "Updating parameters... ";
            EvSetParameters "rack"
              (assigned [("Ami", "ami-1"); ("Tag", "a=b"); ("Ami", "ami-2")])]
        ++ [EvPrint ("OK" +:+ Convox.nl)])
  ∧ ∀ pre k v post,
      [("Ami", "ami-1"); ("Tag", "a=b"); ("Ami", "ami-2")]
      = pre ++ (k, v) :: post →
      k ∉ post.*1 →
      assigned [("Ami", "ami-1"); ("Tag", "a=b"); ("Ami", "ami-2")] !! k
      = Some v.
Proof.
  apply (cmdRackParamsSet_sets
           (CmdScenario.params_set ["Ami=ami-1"; "Tag=a=b"; "Ami=ami-2"])
           [] (mkSystem "rack")
           [("Ami", "ami-1"); ("Tag", "a=b"); ("Ami", "ami-2")]).
  - reflexivity.
  - reflexivity.
  - assert (Hno : ∀ s, cut s = None → ¬ has_eq s).
    { intros s Hs (k & v & ->).
      destruct (cut_has_eq (k +:+ "=" +:+ v)) as (k' & v' & Hcut);
        [by exists k, v|]. by rewrite Hcut in Hs. }
    repeat constructor; apply Hno; reflexivity.
Defined.

(** X18.  [convox rack params set] rejects the whole command line at the
    first argument that is not of the shape NAME=VALUE: it returns
    "invalid argument: <arg>" and sets nothing, although the arguments
    before it were well formed. *)
Theorem cmdRackParamsSet_rejects w st system pre bad post :
  GetSystem w = inl system →
  Args w = pre ++ bad :: post →
  Forall has_eq pre →
  ¬ has_eq bad →
  cmdRackParamsSet w st
  = (Err ("invalid argument: " +:+ bad), st ++ [EvGetSystem]).
Proof.
  intros Hsys Hargs Hpre Hbad.
  unfold cmdRackParamsSet. unfold bind at 1. unfold emit at 1, modify.
  unfold bind at 1. rewrite Hsys. cbn [lift]. unfold ret at 1.
  unfold bind at 1. by rewrite Hargs, parseArgs_reject.
Qed.

Lemma cmdRackParamsSet_rejects_witness :
  cmdRackParamsSet (CmdScenario.params_set ["Ami=ami-1"; "Tag"; "X=1"]) []
  = (Err "invalid argument: Tag", [] ++ [EvGetSystem]).
Proof.
  apply (cmdRackParamsSet_rejects
           (CmdScenario.params_set ["Ami=ami-1"; "Tag"; "X=1"]) []
           (mkSystem "rack") ["Ami=ami-1"] "Tag" ["X=1"]).
  - reflexivity.
  - reflexivity.
  - repeat constructor. by exists "Ami", "ami-1".
  - intros (k & v & Heq).
    destruct (cut_has_eq "Tag") as (k' & v' & Hcut); [by exists k, v|].
    discriminate Hcut.
Defined.

End RackCmdFacts.

Module ConvoxCmdFacts.
Import Convox ConvoxCmd.

(** X19.  [convox build] builds only an app that is running or updating.
    For any other status the command fails right after [GetApp] — with
    "app is still creating: <app>" for the status "creating" and with
    "unable to build app: <app>" otherwise — and nothing of the build has
    happened: no request, no file access, no output. *)
Theorem cmdBuildsCreate_status_gate c fuel st dir app status :
  DirApp c (match Args c with a :: _ => a | [] => "." end) = inl (dir, app) →
  GetApp c app = inl status →
  status ≠ "running" → status ≠ "updating" →
  cmdBuildsCreate c fuel st
  = (Err (if decide (status = "creating")
          then "app is still creating: " +:+ app
          else "unable to build app: " +:+ app),
     mkCmdState (core st)
       (calls st ++ [(List.length (trace (core st)), CallGetApp app)])).
Proof.
  intros Hdir Happ Hrun Hupd.
  unfold cmdBuildsCreate, call, ExitError. go_unfold.
  rewrite Hdir. cbn. rewrite Happ. cbn.
  case_decide; [done|]. case_decide as Hs; [by destruct Hs|done].
Qed.

Lemma cmdBuildsCreate_status_gate_witness :
  cmdBuildsCreate CmdScenario.build_creating 3 CmdScenario.cst0
  = (Err "app is still creating: app",
     mkCmdState Scenario.st0 ([] ++ [(0, CallGetApp "app")])).
Proof.
  apply (cmdBuildsCreate_status_gate CmdScenario.build_creating 3
           CmdScenario.cst0 "." "app" "creating");
    [reflexivity | reflexivity | discriminate | discriminate].
Defined.

(** For a running or updating app [convox build] runs
    [executeBuild] on the first argument when there is one (on the
    directory [stdcli.DirApp] found otherwise), with the flags "file" and
    "description"; it returns the error of the build, or prints the
    release and returns nil. *)
Lemma cmdBuildsCreate_builds c fuel st dir app status :
  DirApp c (match Args c with a :: _ => a | [] => "." end) = inl (dir, app) →
  GetApp c app = inl status →
  status = "running" ∨ status = "updating" →
  let source := match Args c with a :: _ => a | [] => dir end in
  let r := executeBuild (rack c) fuel source app (flag_file c)
             (flag_description c) (core st) in
  let called := calls st ++ [(List.length (trace (core st)), CallGetApp app)] in
  cmdBuildsCreate c fuel st
  = match r.1 with
    | Ok release =>
        (Ok tt,
         mkCmdState
           (mkState (trace r.2 ++ [EvPrint ("Release: " +:+ release +:+ nl)])
              (clock r.2)) called)
    | Err e => (Err e, mkCmdState r.2 called)
    | Panic => (Panic, mkCmdState r.2 called)
    | Running => (Running, mkCmdState r.2 called)
    end.
Proof.
  intros Hdir Happ Hstatus source r called.
  unfold cmdBuildsCreate, call, run, ExitError, Print, emit. go_unfold.
  rewrite Hdir. cbn. rewrite Happ. cbn.
  assert (Hnc : status ≠ "creating") by (by destruct Hstatus as [-> | ->]).
  case_decide; [done|]. case_decide; [|done]. cbn.
  fold source. fold r. by destruct r as [[release| | |] cs].
Qed.

Lemma cmdBuildsCreate_builds_witness :
  cmdBuildsCreate CmdScenario.build_running 3 CmdScenario.cst0
  = match (executeBuild Scenario.old_rack 3 "src" "app" "docker-compose.yml"
             "" Scenario.st0).1 with
    | Ok release =>
        (Ok tt,
         mkCmdState
           (mkState
              (trace (executeBuild Scenario.old_rack 3 "src" "app"
                        "docker-compose.yml" "" Scenario.st0).2
               ++ [EvPrint ("Release: " +:+ release +:+ nl)])
              (clock (executeBuild Scenario.old_rack 3 "src" "app"
                        "docker-compose.yml" "" Scenario.st0).2))
           ([] ++ [(0, CallGetApp "app")]))
    | Err e =>
        (Err e,
         mkCmdState (executeBuild Scenario.old_rack 3 "src" "app"
                       "docker-compose.yml" "" Scenario.st0).2
           ([] ++ [(0, CallGetApp "app")]))
    | Panic =>
        (Panic,
         mkCmdState (executeBuild Scenario.old_rack 3 "src" "app"
                       "docker-compose.yml" "" Scenario.st0).2
           ([] ++ [(0, CallGetApp "app")]))
    | Running =>
        (Running,
         mkCmdState (executeBuild Scenario.old_rack 3 "src" "app"
                       "docker-compose.yml" "" Scenario.st0).2
           ([] ++ [(0, CallGetApp "app")]))
    end.
Proof.
  apply (cmdBuildsCreate_builds CmdScenario.build_running 3
           CmdScenario.cst0 "src" "app" "running");
    [reflexivity | reflexivity | by left].
Defined.

(** X20.  [convox builds copy] promotes only on request: every
    [PromoteRelease] it calls is for the destination app named on the
    command line and for the non-empty release that [finishBuild]
    returned for the copied build, and it is called only with the
    "promote" flag set.  With other than two arguments the command only
    shows its usage. *)
Theorem cmdBuildsCopy_promotes_on_request c fuel st dir app :
  DirApp c "." = inl (dir, app) →
  ∃ new,
    calls (cmdBuildsCopy c fuel st).2 = calls st ++ new
    ∧ (∀ n dest id, (n, CallPromoteRelease dest id) ∈ new →
         flag_promote c = true ∧ id ≠ ""
         ∧ ∃ build b,
             Args c = [build; dest]
             ∧ CopyBuild c app build dest = inl b
             ∧ ∃ cs, (finishBuild (rack c) fuel dest b cs).1 = Ok id)
    ∧ ((∀ build dest, Args c ≠ [build; dest]) →
         cmdBuildsCopy c fuel st
         = (Ok tt,
            mkCmdState (core st)
              (calls st ++ [(List.length (trace (core st)),
                             CallUsage "copy")]))).
Proof.
  intros Hdir.
  unfold cmdBuildsCopy. unfold bind at 1. rewrite Hdir. cbn [orExit].
  unfold ret at 1. cbn [snd].
  destruct (Args c) as [|build [|dest [|x args]]] eqn:Hargs.
  1,2,4: (eexists; split; [reflexivity|]; split;
          [intros n d i Hin; apply list_elem_of_singleton in Hin;
           discriminate Hin | intros _; reflexivity]).
  unfold call, run, ExitError, Print, emit. go_unfold. cbn.
  destruct (CopyBuild c app build dest) as [b|e] eqn:Hcopy; cbn.
  2:{ eexists. split; [reflexivity|]. split.
      - intros n d i Hin. apply list_elem_of_singleton in Hin.
        discriminate Hin.
      - intros Hne. by destruct (Hne build dest). }
  match goal with
  | |- context [finishBuild (rack c) fuel dest b ?s] => set (cs := s)
  end.
  destruct (finishBuild (rack c) fuel dest b cs) as [[id| | |] cs'] eqn:Hfin;
    cbn.
  2-4: (eexists; split; [reflexivity|]; split;
        [intros n d i Hin; apply list_elem_of_singleton in Hin;
         discriminate Hin | intros Hne; by destruct (Hne build dest)]).
  case_decide as Hid; cbn.
  2:{ eexists. split; [reflexivity|]. split.
      - intros n d i Hin. apply list_elem_of_singleton in Hin.
        discriminate Hin.
      - intros Hne. by destruct (Hne build dest). }
  destruct (flag_promote c) eqn:Hflag; cbn.
  2:{ eexists. split; [reflexivity|]. split.
      - intros n d i Hin. apply list_elem_of_singleton in Hin.
        discriminate Hin.
      - intros Hne. by destruct (Hne build dest). }
  destruct (PromoteRelease c dest id); cbn.
  all: eexists; (split; [rewrite <- app_assoc; reflexivity|]); split;
    [|intros Hne; by destruct (Hne build dest)].
  all: intros n d i Hin;
    apply elem_of_cons in Hin as [Hin|Hin]; [discriminate Hin|];
    apply list_elem_of_singleton in Hin; injection Hin as _ -> ->;
    split; [done|]; split; [done|];
    exists build, b; split; [done|]; split; [done|];
    exists cs; by rewrite Hfin.
Qed.

Lemma cmdBuildsCopy_promotes_on_request_witness :
  ∃ new,
    calls (cmdBuildsCopy CmdScenario.copy_promote 3 CmdScenario.cst0).2
    = [] ++ new
    ∧ (∀ n dest id, (n, CallPromoteRelease dest id) ∈ new →
         flag_promote CmdScenario.copy_promote = true ∧ id ≠ ""
         ∧ ∃ build b,
             Args CmdScenario.copy_promote = [build; dest]
             ∧ CopyBuild CmdScenario.copy_promote "app" build dest = inl b
             ∧ ∃ cs, (finishBuild (rack CmdScenario.copy_promote) 3 dest b
                        cs).1 = Ok id)
    ∧ ((∀ build dest, Args CmdScenario.copy_promote ≠ [build; dest]) →
         cmdBuildsCopy CmdScenario.copy_promote 3 CmdScenario.cst0
         = (Ok tt,
            mkCmdState (core CmdScenario.cst0)
              ([] ++ [(List.length (trace (core CmdScenario.cst0)),
                       CallUsage "copy")]))).
Proof.
  apply (cmdBuildsCopy_promotes_on_request CmdScenario.copy_promote 3
           CmdScenario.cst0 "." "app").
  reflexivity.
Defined.

(** The copy with [--promote] on the old rack: copied, followed to
    release "R1", promoted. *)
Example cmdBuildsCopy_promote_run :
  calls (cmdBuildsCopy CmdScenario.copy_promote 3 CmdScenario.cst0).2
  = [(1, CallCopyBuild "app" "B1" "staging");
     (10, CallPromoteRelease "staging" "R1")]
  ∧ calls (cmdBuildsCopy CmdScenario.copy_plain 3 CmdScenario.cst0).2
    = [(1, CallCopyBuild "app" "B1" "staging")].
Proof. split; vm_compute; reflexivity. Qed.

End ConvoxCmdFacts.

Module ConvoxSubmit.
Import Convox ConvoxSpec ConvoxTerms ConvoxKinds ConvoxFrame ConvoxEmits
  ConvoxUpload.

(** X21.  [executeBuildDir] submits nothing but the archive it made: a
    [CreateBuildSource] request in its trace carries an archive that
    [createTarball] returned for the absolute path of the directory, for
    the app and the manifest and description it was given, with the cache
    flag the negation of "no-cache".  So when the archive cannot be made,
    no build is requested. *)
Theorem executeBuildDir_submits_its_tarball
    w fuel dir app manifest description st :
  ∃ evs,
    trace (executeBuildDir w fuel dir app manifest description st).2
    = trace st ++ evs
    ∧ ∀ app' a cache manifest' description',
        EvCreateBuildSource app' a cache manifest' description' ∈ evs →
        app' = app ∧ manifest' = manifest ∧ description' = description
        ∧ cache = negb (flag_no_cache w)
        ∧ ∃ abs st1 st2,
            Abs w dir = inl abs ∧ createTarball w abs st1 = (Ok a, st2).
Proof.
  set (Q := λ ev, ∀ app' a cache manifest' description',
              ev = EvCreateBuildSource app' a cache manifest' description' →
              app' = app ∧ manifest' = manifest ∧ description' = description
              ∧ cache = negb (flag_no_cache w)
              ∧ ∃ abs st1 st2,
                  Abs w dir = inl abs
                  ∧ createTarball w abs st1 = (Ok a, st2)).
  assert (Hother : ∀ ev, kind ev ≠ KCreateBuildSource → Q ev).
  { intros ev Hk ? ? ? ? ? ->. by destruct Hk. }
  assert (Hquiet : ∀ {A} (m : M A) ks,
            KCreateBuildSource ∉ ks → emits_only (only ks) m → emits_only Q m).
  { intros A m ks Hks. apply emits_only_mono. intros ev Hev.
    apply Hother. intros Heq. apply Hks. by rewrite <- Heq. }
  assert (Hnot : ∀ ks : list Kind,
            bool_decide (KCreateBuildSource ∈ ks) = false →
            KCreateBuildSource ∉ ks).
  { intros ks Hks Hin. rewrite (bool_decide_eq_true_2 _ Hin) in Hks.
    discriminate Hks. }
  assert (Hrun : emits_only Q
                   (executeBuildDir w fuel dir app manifest description)).
  { unfold executeBuildDir, Print.
    apply emits_only_bind; [|intros _].
    { apply (Hquiet _ _ [KPrint]); [by apply Hnot|].
      apply warnUnignoredEnv_emits. }
    apply emits_only_bind_ok; [apply emits_only_lift|].
    intros abs s s' Habs%lift_ok.
    apply emits_only_bind; [by apply emits_only_emit, Hother|intros _].
    apply emits_only_bind_ok.
    { apply (Hquiet _ _ [KChdir; KTarWithOptions]); [by apply Hnot|].
      apply createTarball_emits. }
    intros tar s1 s2 Htar.
    apply emits_only_bind; [by apply emits_only_emit, Hother|intros _].
    apply emits_only_bind.
    { apply emits_only_emit. intros ? ? ? ? ? [= <- <- <- <- <-].
      repeat split; try done. by exists abs, s1, s2. }
    intros _.
    apply emits_only_bind; [apply emits_only_lift|intros build].
    apply emits_only_bind; [by apply emits_only_emit, Hother|intros _].
    apply (Hquiet _ _ finishing); [by apply Hnot|].
    apply finishBuild_emits. }
  destruct (Hrun st) as (evs & Htr & Hevs).
  exists evs. split; [done|]. intros app' a cache manifest' description' Hin.
  rewrite Forall_forall in Hevs. by apply (Hevs _ Hin).
Qed.

Lemma executeBuildDir_submits_its_tarball_witness :
  ∃ evs,
    trace (executeBuildDir Scenario.self_ignoring 3 "." "app"
             "docker-compose.yml" "" Scenario.st0).2 = [] ++ evs
    ∧ ∀ app' a cache manifest' description',
        EvCreateBuildSource app' a cache manifest' description' ∈ evs →
        app' = "app" ∧ manifest' = "docker-compose.yml" ∧ description' = ""
        ∧ cache = negb (flag_no_cache Scenario.self_ignoring)
        ∧ ∃ abs st1 st2,
            Abs Scenario.self_ignoring "." = inl abs
            ∧ createTarball Scenario.self_ignoring abs st1 = (Ok a, st2).
Proof.
  exact (executeBuildDir_submits_its_tarball Scenario.self_ignoring 3 "."
           "app" "docker-compose.yml" "" Scenario.st0).
Defined.

End ConvoxSubmit.
